(** * MITCH wire codec and message framing: a shallow embedding

    The development follows [src/examples/example.c] (the pack/unpack
    functions and the TCP framing helpers) and [src/model/model.h] (the
    structures).  Bytes are [Byte.byte]; the fixed-width unsigned integers
    of the C code are [Z] with their ranges stated where they matter; a
    [double] is carried as its 64-bit object representation, because the
    code only ever moves it with [memcpy]. *)

From Stdlib Require Import ZArith List Lia Bool Arith.
From Stdlib Require Import Strings.Byte.
From Equations Require Import Equations.
Import ListNotations.

Local Open Scope Z_scope.

(* ================================================================== *)
(** ** Bytes *)

Definition byte_of_Z (x : Z) : byte :=
  match Byte.of_N (Z.to_N (x mod 256)) with
  | Some b => b
  | None => x00
  end.

Definition Z_of_byte (b : byte) : Z := Z.of_N (Byte.to_N b).

(* ================================================================== *)
(** ** Byte sequences of fixed-width unsigned integers *)

(** Least significant byte first. *)
Fixpoint le_bytes (n : nat) (x : Z) : list byte :=
  match n with
  | O => []
  | S k => byte_of_Z (x mod 256) :: le_bytes k (x / 256)
  end.

Fixpoint le_value (l : list byte) : Z :=
  match l with
  | [] => 0
  | b :: r => Z_of_byte b + 256 * le_value r
  end.

(** Most significant byte first (network order). *)
Definition be_bytes (n : nat) (x : Z) : list byte := rev (le_bytes n x).
Definition be_value (l : list byte) : Z := le_value (rev l).

(** [bswap_16], [bswap_32], [bswap_64]: the value whose bytes are those of
    [x] in reverse order. *)
Definition bswap (n : nat) (x : Z) : Z := le_value (rev (le_bytes n x)).

(* ================================================================== *)
(** ** Memory

    A C pointer carries no length.  Memory is addressed by offsets from a
    base; a buffer argument is an offset into it, and the size the caller
    reserved for it is a separate number, exactly as in the C signatures.
    Stores outside the caller's reservation are therefore visible in the
    model instead of being cut off. *)

Definition mem := nat -> byte.

Definition store (m : mem) (p : nat) (b : byte) : mem :=
  fun q => if Nat.eqb q p then b else m q.

(** Consecutive byte stores starting at [dst]. *)
Fixpoint write_bytes (m : mem) (dst : nat) (bs : list byte) : mem :=
  match bs with
  | [] => m
  | b :: r => write_bytes (store m dst b) (S dst) r
  end.

(** [memcpy(dst, src, n)] where [src] is an object given by its bytes. *)
Definition memcpy (m : mem) (dst : nat) (src : list byte) (n : nat) : mem :=
  write_bytes m dst (firstn n src).

(** [memset(dst, c, n)]. *)
Definition memset (m : mem) (dst : nat) (c : byte) (n : nat) : mem :=
  write_bytes m dst (repeat c n).

(** The [n] bytes found at [src]. *)
Definition load (m : mem) (src : nat) (n : nat) : list byte :=
  map m (seq src n).

(* ================================================================== *)
(** ** Structures of [model.h]

    [example.c] names the body structures [Trade], [Order], [Tick] and
    [OrderBook]; [model.h] declares them as [TradeBody], [OrderBody],
    [TickerBody] and [OrderBookBody].  The fields the functions touch are
    the ones declared there. *)

Module MitchHeader.
Record t := mk {
  message_type : byte;
  timestamp : list byte;      (* uint8_t[6] *)
  count : byte
}.
End MitchHeader.

Module Trade.
Record t := mk {
  ticker_id : Z;              (* uint64_t *)
  price : Z;                  (* double, as its 64-bit pattern *)
  quantity : Z;               (* uint32_t *)
  trade_id : Z;               (* uint32_t *)
  side : byte;
  padding : list byte         (* uint8_t[7] *)
}.
End Trade.

Module Order.
Record t := mk {
  ticker_id : Z;              (* uint64_t *)
  order_id : Z;               (* uint32_t *)
  price : Z;                  (* double, as its 64-bit pattern *)
  quantity : Z;               (* uint32_t *)
  type_and_side : byte;
  expiry : list byte;         (* uint8_t[6] *)
  padding : byte
}.
End Order.

Module Tick.
Record t := mk {
  ticker_id : Z;              (* uint64_t *)
  bid_price : Z;              (* double, as its 64-bit pattern *)
  ask_price : Z;              (* double, as its 64-bit pattern *)
  bid_volume : Z;             (* uint32_t *)
  ask_volume : Z              (* uint32_t *)
}.
End Tick.

Module OrderBook.
Record t := mk {
  ticker_id : Z;              (* uint64_t *)
  first_tick : Z;             (* double, as its 64-bit pattern *)
  tick_size : Z;              (* double, as its 64-bit pattern *)
  num_ticks : Z;              (* uint16_t *)
  side : byte;
  padding : list byte         (* uint8_t[5] *)
}.
End OrderBook.

Definition MITCH_MSG_TYPE_TRADE : byte := x74.       (* 't' *)
Definition MITCH_MSG_TYPE_ORDER : byte := x6f.       (* 'o' *)
Definition MITCH_MSG_TYPE_TICKER : byte := x73.      (* 's' *)
Definition MITCH_MSG_TYPE_ORDER_BOOK : byte := x71.  (* 'q' *)

(** Value ranges of the integer fields. *)
Definition u16 (x : Z) : Prop := 0 <= x < 2 ^ 16.
Definition u32 (x : Z) : Prop := 0 <= x < 2 ^ 32.
Definition u64 (x : Z) : Prop := 0 <= x < 2 ^ 64.

Definition Trade_valid (r : Trade.t) : Prop :=
  u64 (Trade.ticker_id r) /\ u64 (Trade.price r) /\
  u32 (Trade.quantity r) /\ u32 (Trade.trade_id r).

Definition Order_valid (r : Order.t) : Prop :=
  u64 (Order.ticker_id r) /\ u32 (Order.order_id r) /\
  u64 (Order.price r) /\ u32 (Order.quantity r) /\
  length (Order.expiry r) = 6%nat.

Definition Tick_valid (r : Tick.t) : Prop :=
  u64 (Tick.ticker_id r) /\ u64 (Tick.bid_price r) /\
  u64 (Tick.ask_price r) /\ u32 (Tick.bid_volume r) /\
  u32 (Tick.ask_volume r).

Definition OrderBook_valid (r : OrderBook.t) : Prop :=
  u64 (OrderBook.ticker_id r) /\ u64 (OrderBook.first_tick r) /\
  u64 (OrderBook.tick_size r) /\ u16 (OrderBook.num_ticks r).

(* ================================================================== *)
(** ** Integer arithmetic of the C code *)

(** [int] is 32 bits wide (POSIX); results are reduced to its range. *)
Definition int_wrap (x : Z) : Z := (x + 2 ^ 31) mod 2 ^ 32 - 2 ^ 31.
Definition int_add (a b : Z) : Z := int_wrap (a + b).
Definition int_mul (a b : Z) : Z := int_wrap (a * b).

(* ================================================================== *)
(** ** The socket

    The peer's byte stream as the sequence of things successive [recv]
    calls will meet: a non-empty segment of data that has arrived, or a
    transport failure.  When nothing is left the peer has closed the
    connection.  A [recv] for [len] bytes hands over at most [len] bytes
    of the segment at the front and keeps what is left of it, so any
    pattern of partial reads is some sequence of segments. *)

Inductive event :=
| Segment (b : byte) (bs : list byte)
| Failure.

Definition socket := list event.

(** [recv(socket, buffer, len, 0)]: the return value, what is left of the
    stream, and the memory with the received bytes stored at [buffer]. *)
Definition recv (s : socket) (m : mem) (buffer : nat) (len : nat)
  : Z * socket * mem :=
  match s with
  | [] => (0, [], m)
  | Failure :: s' => (-1, s', m)
  | Segment b bs :: s' =>
      let data := firstn len (b :: bs) in
      let s'' := match skipn len (b :: bs) with
                 | [] => s'
                 | c :: cs => Segment c cs :: s'
                 end in
      (Z.of_nat (length data), s'', write_bytes m buffer data)
  end.

(** The bytes the stream delivers before it fails or closes. *)
Fixpoint deliverable (s : socket) : list byte :=
  match s with
  | Segment b bs :: s' => (b :: bs) ++ deliverable s'
  | _ => []
  end.

(** The stream after [n] of its bytes have been taken. *)
Fixpoint advance (s : socket) (n : nat) : socket :=
  match n with
  | O => s
  | S _ =>
      match s with
      | Segment b bs :: s' =>
          match skipn n (b :: bs) with
          | [] => advance s' (n - length (b :: bs))
          | c :: cs => Segment c cs :: s'
          end
      | _ => s
      end
  end.

(** A stream that hands [bytes] over in partial reads of the given
    [sizes], then in one last read whatever is left, and then closes.
    A size of 0 is skipped: every read delivers at least one byte. *)
Fixpoint split_stream (sizes : list nat) (bytes : list byte) : socket :=
  match sizes with
  | [] =>
      match bytes with
      | [] => []
      | b :: bs => [Segment b bs]
      end
  | n :: sizes' =>
      match firstn n bytes with
      | [] => split_stream sizes' (skipn n bytes)
      | b :: bs => Segment b bs :: split_stream sizes' (skipn n bytes)
      end
  end.

(** *** The sending direction

    What successive [send] calls will meet: room for at least one byte,
    a call that takes nothing, or a failure.  When nothing is left the
    connection is gone and [send] fails.  [accepted] collects the bytes
    the transport has taken, in order. *)
Inductive send_event :=
| Room (n : nat)        (* the call takes up to [S n] bytes *)
| Stall                 (* the call returns 0 *)
| SendFailure.          (* the call returns -1 *)

Record sink := mk_sink {
  upcoming : list send_event;
  accepted : list byte
}.

(** [send(socket, data, len, 0)]: the return value and the sink after. *)
Definition send (k : sink) (m : mem) (data : nat) (len : nat) : Z * sink :=
  match upcoming k with
  | [] => (-1, k)
  | SendFailure :: u => (-1, mk_sink u (accepted k))
  | Stall :: u => (0, mk_sink u (accepted k))
  | Room n :: u =>
      let taken := Nat.min len (S n) in
      (Z.of_nat taken, mk_sink u (accepted k ++ load m data taken))
  end.

(** The number of bytes the sink takes before it stalls, fails or the
    connection goes. *)
Fixpoint room (u : list send_event) : nat :=
  match u with
  | Room n :: u' => (S n + room u')%nat
  | _ => O
  end.

(** The loop of [mitch_send_tcp]. *)
Equations? mitch_send_tcp_loop (k : sink) (m : mem) (data : nat)
    (total_sent length : nat) : Z * sink
    by wf (length - total_sent)%nat lt :=
  mitch_send_tcp_loop k m data total_sent length
    with lt_dec total_sent length => {
    | right _ => (0, k)
    | left _
        with send k m (data + total_sent) (length - total_sent) => {
        | (sent, k') with Z_le_gt_dec sent 0 => {
            | left _ => (-1, k')
            | right _ =>
                mitch_send_tcp_loop k' m data
                  (total_sent + Z.to_nat sent) length } } }.
Proof. lia. Qed.

Definition mitch_send_tcp (k : sink) (m : mem) (data : nat) (length : nat)
  : Z * sink :=
  mitch_send_tcp_loop k m data 0 length.

(** *** Utility functions of [example.c] and macros of [model.h] *)

(** [nanos] is a [uint64_t]; each stored value is reduced to a byte by the
    mask. *)
Definition write_timestamp_48 (m : mem) (dest : nat) (nanos : Z) : mem :=
  let m := store m (dest + 0) (byte_of_Z (Z.land (Z.shiftr nanos 40) 0xFF)) in
  let m := store m (dest + 1) (byte_of_Z (Z.land (Z.shiftr nanos 32) 0xFF)) in
  let m := store m (dest + 2) (byte_of_Z (Z.land (Z.shiftr nanos 24) 0xFF)) in
  let m := store m (dest + 3) (byte_of_Z (Z.land (Z.shiftr nanos 16) 0xFF)) in
  let m := store m (dest + 4) (byte_of_Z (Z.land (Z.shiftr nanos 8) 0xFF)) in
  let m := store m (dest + 5) (byte_of_Z (Z.land nanos 0xFF)) in
  m.

(** The shifts are on [uint64_t] values below 256, by at most 40 bits, so
    none of them leaves the 64 bits. *)
Definition read_timestamp_48 (m : mem) (src : nat) : Z :=
  Z.lor (Z.lor (Z.lor (Z.lor (Z.lor
    (Z.shiftl (Z_of_byte (m (src + 0)%nat)) 40)
    (Z.shiftl (Z_of_byte (m (src + 1)%nat)) 32))
    (Z.shiftl (Z_of_byte (m (src + 2)%nat)) 24))
    (Z.shiftl (Z_of_byte (m (src + 3)%nat)) 16))
    (Z.shiftl (Z_of_byte (m (src + 4)%nat)) 8))
    (Z_of_byte (m (src + 5)%nat)).

Definition EXTRACT_SIDE (type_and_side : Z) : Z := Z.land type_and_side 0x01.

Definition EXTRACT_ORDER_TYPE (type_and_side : Z) : Z :=
  Z.land (Z.shiftr type_and_side 1) 0x7F.

Definition COMBINE_TYPE_AND_SIDE (order_type side : Z) : Z :=
  Z.lor (Z.shiftl order_type 1) side.

(** The three functions take and return [uint8_t]: the macro's [int]
    result is reduced to a byte on return. *)
Definition combine_type_and_side (order_type side : byte) : byte :=
  byte_of_Z (COMBINE_TYPE_AND_SIDE (Z_of_byte order_type) (Z_of_byte side)).

Definition extract_side (type_and_side : byte) : byte :=
  byte_of_Z (EXTRACT_SIDE (Z_of_byte type_and_side)).

Definition extract_order_type (type_and_side : byte) : byte :=
  byte_of_Z (EXTRACT_ORDER_TYPE (Z_of_byte type_and_side)).

(* ================================================================== *)
(** ** The codec and the framing functions of [example.c] *)

(** What the code takes from the platform it is compiled for. *)
Class Platform := {
  (** byte order of the host: [true] on a little-endian machine *)
  host_little_endian : bool;
  (** width of [size_t] in bits *)
  size_bits : Z;
  (** the code needs sockets, so a POSIX system: [size_t] has at least
      32 bits there *)
  size_bits_ge : 32 <= size_bits
}.

Section Mitch.

Context {P : Platform}.

(** *** Host representation and byte-order conversion *)

(** The bytes of an [n]-byte unsigned object holding [x], in memory order:
    what [memcpy(dst, &x, n)] copies. *)
Definition object_repr (n : nat) (x : Z) : list byte :=
  if host_little_endian then le_bytes n x else be_bytes n x.

(** The value of the unsigned object whose bytes are [l]: what
    [memcpy(&x, src, n)] leaves in [x]. *)
Definition object_value (l : list byte) : Z :=
  if host_little_endian then le_value l else be_value l.

Definition htons (x : Z) : Z := if host_little_endian then bswap 2 x else x.
Definition ntohs (x : Z) : Z := if host_little_endian then bswap 2 x else x.
Definition htonl (x : Z) : Z := if host_little_endian then bswap 4 x else x.
Definition ntohl (x : Z) : Z := if host_little_endian then bswap 4 x else x.
Definition htobe64 (x : Z) : Z := if host_little_endian then bswap 8 x else x.
Definition be64toh (x : Z) : Z := if host_little_endian then bswap 8 x else x.

(** [size_t] arithmetic is modulo [2 ^ size_bits]. *)
Definition size_wrap (x : Z) : Z := x mod 2 ^ size_bits.
Definition size_add (a b : Z) : Z := size_wrap (a + b).
Definition size_mul (a b : Z) : Z := size_wrap (a * b).

(** *** Helpers for doubles *)

(** [memcpy(&bits, &value, 8)] and back leave the 64-bit pattern as it is. *)
Definition write_double_be (m : mem) (dest : nat) (value : Z) : mem :=
  let bits := value in
  let bits := htobe64 bits in
  memcpy m dest (object_repr 8 bits) 8.

Definition read_double_be (m : mem) (src : nat) : Z :=
  let bits := object_value (load m src 8) in
  let bits := be64toh bits in
  let value := bits in
  value.

(** *** Packing *)

Definition pack_header (header : MitchHeader.t) (m : mem) (buffer : nat)
  : mem * Z :=
  let m := store m (buffer + 0) (MitchHeader.message_type header) in
  let m := memcpy m (buffer + 1) (MitchHeader.timestamp header) 6 in
  let m := store m (buffer + 7) (MitchHeader.count header) in
  (m, 8).

Definition pack_trade_body (trade : Trade.t) (m : mem) (buffer : nat)
  : mem * Z :=
  let ptr := buffer in
  let ticker_id := htobe64 (Trade.ticker_id trade) in
  let m := memcpy m ptr (object_repr 8 ticker_id) 8 in
  let ptr := (ptr + 8)%nat in
  let m := write_double_be m ptr (Trade.price trade) in
  let ptr := (ptr + 8)%nat in
  let quantity := htonl (Trade.quantity trade) in
  let m := memcpy m ptr (object_repr 4 quantity) 4 in
  let ptr := (ptr + 4)%nat in
  let trade_id := htonl (Trade.trade_id trade) in
  let m := memcpy m ptr (object_repr 4 trade_id) 4 in
  let ptr := (ptr + 4)%nat in
  let m := store m ptr (Trade.side trade) in
  let ptr := (ptr + 1)%nat in
  let m := memset m ptr x00 7 in
  (m, 32).

Definition pack_order_body (order : Order.t) (m : mem) (buffer : nat)
  : mem * Z :=
  let ptr := buffer in
  let ticker_id := htobe64 (Order.ticker_id order) in
  let m := memcpy m ptr (object_repr 8 ticker_id) 8 in
  let ptr := (ptr + 8)%nat in
  let order_id := htonl (Order.order_id order) in
  let m := memcpy m ptr (object_repr 4 order_id) 4 in
  let ptr := (ptr + 4)%nat in
  let m := write_double_be m ptr (Order.price order) in
  let ptr := (ptr + 8)%nat in
  let quantity := htonl (Order.quantity order) in
  let m := memcpy m ptr (object_repr 4 quantity) 4 in
  let ptr := (ptr + 4)%nat in
  let m := store m ptr (Order.type_and_side order) in
  let ptr := (ptr + 1)%nat in
  let m := memcpy m ptr (Order.expiry order) 6 in
  let ptr := (ptr + 6)%nat in
  let m := store m ptr (Order.padding order) in
  (m, 32).

Definition pack_ticker_body (ticker : Tick.t) (m : mem) (buffer : nat)
  : mem * Z :=
  let ptr := buffer in
  let ticker_id := htobe64 (Tick.ticker_id ticker) in
  let m := memcpy m ptr (object_repr 8 ticker_id) 8 in
  let ptr := (ptr + 8)%nat in
  let m := write_double_be m ptr (Tick.bid_price ticker) in
  let ptr := (ptr + 8)%nat in
  let m := write_double_be m ptr (Tick.ask_price ticker) in
  let ptr := (ptr + 8)%nat in
  let bid_volume := htonl (Tick.bid_volume ticker) in
  let m := memcpy m ptr (object_repr 4 bid_volume) 4 in
  let ptr := (ptr + 4)%nat in
  let ask_volume := htonl (Tick.ask_volume ticker) in
  let m := memcpy m ptr (object_repr 4 ask_volume) 4 in
  (m, 32).

(** The loop [for (int i = 0; i < num_ticks; i++)] of
    [pack_order_book_body], with [todo] iterations left to run from index
    [i].  [volumes] is the caller's array; an index past its end reads as
    0 here. *)
Fixpoint pack_volumes (todo : nat) (i : nat) (volumes : list Z)
    (m : mem) (ptr : nat) : mem :=
  match todo with
  | O => m
  | S todo' =>
      let volume := htonl (nth i volumes 0) in
      let m := memcpy m ptr (object_repr 4 volume) 4 in
      let ptr := (ptr + 4)%nat in
      pack_volumes todo' (S i) volumes m ptr
  end.

Definition pack_order_book_body (order_book : OrderBook.t)
    (volumes : list Z) (m : mem) (buffer : nat) : mem * Z :=
  let ptr := buffer in
  let ticker_id := htobe64 (OrderBook.ticker_id order_book) in
  let m := memcpy m ptr (object_repr 8 ticker_id) 8 in
  let ptr := (ptr + 8)%nat in
  let m := write_double_be m ptr (OrderBook.first_tick order_book) in
  let ptr := (ptr + 8)%nat in
  let m := write_double_be m ptr (OrderBook.tick_size order_book) in
  let ptr := (ptr + 8)%nat in
  let num_ticks := htons (OrderBook.num_ticks order_book) in
  let m := memcpy m ptr (object_repr 2 num_ticks) 2 in
  let ptr := (ptr + 2)%nat in
  let m := store m ptr (OrderBook.side order_book) in
  let ptr := (ptr + 1)%nat in
  let m := memset m ptr x00 5 in
  let ptr := (ptr + 5)%nat in
  let m := pack_volumes (Z.to_nat (OrderBook.num_ticks order_book)) 0
             volumes m ptr in
  (m, int_add 32 (int_mul (OrderBook.num_ticks order_book) 4)).

(** *** Unpacking *)

Definition unpack_header (m : mem) (buffer : nat) : MitchHeader.t * Z :=
  let message_type := m (buffer + 0)%nat in
  let timestamp := load m (buffer + 1) 6 in
  let count := m (buffer + 7)%nat in
  (MitchHeader.mk message_type timestamp count, 8).

Definition unpack_trade_body (m : mem) (buffer : nat) : Trade.t * Z :=
  let ptr := buffer in
  let ticker_id := object_value (load m ptr 8) in
  let ticker_id := be64toh ticker_id in
  let ptr := (ptr + 8)%nat in
  let price := read_double_be m ptr in
  let ptr := (ptr + 8)%nat in
  let quantity := object_value (load m ptr 4) in
  let quantity := ntohl quantity in
  let ptr := (ptr + 4)%nat in
  let trade_id := object_value (load m ptr 4) in
  let trade_id := ntohl trade_id in
  let ptr := (ptr + 4)%nat in
  let side := m ptr in
  let ptr := (ptr + 1)%nat in
  let padding := load m ptr 7 in
  (Trade.mk ticker_id price quantity trade_id side padding, 32).

Definition unpack_order_body (m : mem) (buffer : nat) : Order.t * Z :=
  let ptr := buffer in
  let ticker_id := object_value (load m ptr 8) in
  let ticker_id := be64toh ticker_id in
  let ptr := (ptr + 8)%nat in
  let order_id := object_value (load m ptr 4) in
  let order_id := ntohl order_id in
  let ptr := (ptr + 4)%nat in
  let price := read_double_be m ptr in
  let ptr := (ptr + 8)%nat in
  let quantity := object_value (load m ptr 4) in
  let quantity := ntohl quantity in
  let ptr := (ptr + 4)%nat in
  let type_and_side := m ptr in
  let ptr := (ptr + 1)%nat in
  let expiry := load m ptr 6 in
  let ptr := (ptr + 6)%nat in
  let padding := m ptr in
  (Order.mk ticker_id order_id price quantity type_and_side expiry padding,
   32).

Definition unpack_ticker_body (m : mem) (buffer : nat) : Tick.t * Z :=
  let ptr := buffer in
  let ticker_id := object_value (load m ptr 8) in
  let ticker_id := be64toh ticker_id in
  let ptr := (ptr + 8)%nat in
  let bid_price := read_double_be m ptr in
  let ptr := (ptr + 8)%nat in
  let ask_price := read_double_be m ptr in
  let ptr := (ptr + 8)%nat in
  let bid_volume := object_value (load m ptr 4) in
  let bid_volume := ntohl bid_volume in
  let ptr := (ptr + 4)%nat in
  let ask_volume := object_value (load m ptr 4) in
  let ask_volume := ntohl ask_volume in
  (Tick.mk ticker_id bid_price ask_price bid_volume ask_volume, 32).

(** The loop of [unpack_order_book_body] with [todo] iterations left: the
    entries it stores into the caller's [volumes] array, in index order. *)
Fixpoint unpack_volumes (todo : nat) (m : mem) (ptr : nat) : list Z :=
  match todo with
  | O => []
  | S todo' =>
      let volume := object_value (load m ptr 4) in
      let volume := ntohl volume in
      let ptr := (ptr + 4)%nat in
      volume :: unpack_volumes todo' m ptr
  end.

(** The function has no parameter for the number of bytes available at
    [buffer]; it returns the record, the volumes and its [int] result. *)
Definition unpack_order_book_body (m : mem) (buffer : nat)
  : OrderBook.t * list Z * Z :=
  let ptr := buffer in
  let ticker_id := object_value (load m ptr 8) in
  let ticker_id := be64toh ticker_id in
  let ptr := (ptr + 8)%nat in
  let first_tick := read_double_be m ptr in
  let ptr := (ptr + 8)%nat in
  let tick_size := read_double_be m ptr in
  let ptr := (ptr + 8)%nat in
  let num_ticks := object_value (load m ptr 2) in
  let num_ticks := ntohs num_ticks in
  let ptr := (ptr + 2)%nat in
  let side := m ptr in
  let ptr := (ptr + 1)%nat in
  let padding := load m ptr 5 in
  let ptr := (ptr + 5)%nat in
  let volumes := unpack_volumes (Z.to_nat num_ticks) m ptr in
  (OrderBook.mk ticker_id first_tick tick_size num_ticks side padding,
   volumes,
   int_add 32 (int_mul num_ticks 4)).

(** *** Receiving *)

(** The loop of [mitch_recv_tcp]; [total_received] never exceeds [length],
    so the pointer and length arithmetic of the loop is exact. *)
Equations? mitch_recv_tcp_loop (s : socket) (m : mem) (buffer : nat)
    (total_received length : nat) : Z * socket * mem
    by wf (length - total_received)%nat lt :=
  mitch_recv_tcp_loop s m buffer total_received length
    with lt_dec total_received length => {
    | right _ => (0, s, m)
    | left _
        with recv s m (buffer + total_received)
               (length - total_received) => {
        | (received, s', m') with Z_le_gt_dec received 0 => {
            | left _ => (-1, s', m')
            | right _ =>
                mitch_recv_tcp_loop s' m' buffer
                  (total_received + Z.to_nat received) length } } }.
Proof. lia. Qed.

Definition mitch_recv_tcp (s : socket) (m : mem) (buffer : nat)
    (length : nat) : Z * socket * mem :=
  mitch_recv_tcp_loop s m buffer 0 length.

(** [buffer_size] is a [size_t]; the result is the [int] the function
    returns, the stream left behind and the memory. *)
Definition mitch_recv_message (s : socket) (m : mem) (buffer : nat)
    (buffer_size : Z) : Z * socket * mem :=
  let '(r, s, m) := mitch_recv_tcp s m buffer 8 in
  if negb (r =? 0) then (-1, s, m) else
  let header := fst (unpack_header m buffer) in
  if Byte.eqb (MitchHeader.message_type header) MITCH_MSG_TYPE_ORDER_BOOK
  then
    if negb (Z_of_byte (MitchHeader.count header) =? 1) then (-3, s, m) else
    let '(r, s, m) := mitch_recv_tcp s m (buffer + 8) 32 in
    if negb (r =? 0) then (-1, s, m) else
    let num_ticks_be := object_value (load m (buffer + 8 + 24) 2) in
    let num_ticks := ntohs num_ticks_be in
    let volumes_size := size_mul num_ticks 4 in
    let body_size := size_add 32 volumes_size in
    if size_add 8 body_size >? buffer_size then (-2, s, m) else
    if volumes_size >? 0 then
      let '(r, s, m) :=
        mitch_recv_tcp s m (buffer + 8 + 32) (Z.to_nat volumes_size) in
      if negb (r =? 0) then (-1, s, m)
      else (int_wrap (size_add 8 body_size), s, m)
    else (int_wrap (size_add 8 body_size), s, m)
  else
    let body_size := size_mul (Z_of_byte (MitchHeader.count header)) 32 in
    if size_add 8 body_size >? buffer_size then (-2, s, m) else
    if body_size >? 0 then
      let '(r, s, m) := mitch_recv_tcp s m (buffer + 8) (Z.to_nat body_size) in
      if negb (r =? 0) then (-1, s, m)
      else (int_wrap (size_add 8 body_size), s, m)
    else (int_wrap (size_add 8 body_size), s, m).

(** *** The worked example

    [example_usage], with the value of [get_timestamp_ns ()] (a
    [uint64_t] read from the clock) as the parameter [timestamp].  The
    local [header] is a record; the storage of its [timestamp] array,
    zeroed by the initialiser, is a memory of its own that
    [write_timestamp_48] fills.  [buffer] is where the local 40-byte array
    lies in [m].  The result is the memory and the final [offset]. *)
Definition example_usage (timestamp : Z) (m : mem) (buffer : nat) : mem * Z :=
  let header_timestamp := write_timestamp_48 (fun _ => x00) 0 timestamp in
  let header :=
    MitchHeader.mk MITCH_MSG_TYPE_TRADE (load header_timestamp 0 6) x01 in
  let trade :=
    Trade.mk 0x00006F001CD00000 0x3FF15C28F5C28F5C 1000000 12345 x00
      (repeat x00 7) in
  let offset := 0 in
  let '(m, n) := pack_header header m (buffer + Z.to_nat offset) in
  let offset := int_add offset n in
  let '(m, n) := pack_trade_body trade m (buffer + Z.to_nat offset) in
  let offset := int_add offset n in
  (m, offset).

End Mitch.

(* ================================================================== *)
(** ** Concrete platforms and inputs used in the examples below *)

(** A little-endian host with a 64-bit [size_t], such as x86-64 Linux. *)
Definition lp64_le : Platform :=
  {| host_little_endian := true; size_bits := 64;
     size_bits_ge := proj1 (Z.leb_le 32 64) eq_refl |}.

(** A big-endian host with a 32-bit [size_t]. *)
Definition ilp32_be : Platform :=
  {| host_little_endian := false; size_bits := 32;
     size_bits_ge := proj1 (Z.leb_le 32 32) eq_refl |}.

Definition zero_mem : mem := fun _ => x00.

(** The trade of [example_usage]; 1.0850 is 0x3FF15C28F5C28F5C. *)
Definition example_trade : Trade.t :=
  Trade.mk 0x00006F001CD00000 0x3FF15C28F5C28F5C 1000000 12345 x00
    (repeat x00 7).

(** A trade whose price is a NaN pattern with a payload. *)
Definition nan_trade : Trade.t :=
  Trade.mk 1 0x7FF8000000000001 2 3 x01 (repeat x00 7).

(** An order priced at negative infinity, with a non-zero padding byte. *)
Definition padded_order : Order.t :=
  Order.mk 7 8 0xFFF0000000000000 9 x03 [x01; x02; x03; x04; x05; x06] xff.

Definition example_tick : Tick.t :=
  Tick.mk 5 0x7FF0000000000000 0x7FF8000000000000 10 20.

Definition example_book : OrderBook.t :=
  OrderBook.mk 0x00006F001CD00000 0x3FF15C28F5C28F5C 0x3F1A36E2EB1C432D
    2 x01 (repeat x00 5).

(** *** Messages on the wire

    A complete message as the wire format lays it out: 8 header bytes
    (tag at byte 0, count at byte 7) followed by [count] bodies of 32
    bytes, or, under the order-book tag, by one body of 32 bytes plus 4
    bytes per volume entry, the number of entries being the big-endian
    16-bit value at bytes 24-25 of the body. *)
Definition wire_num_ticks (body : list byte) : Z :=
  be_value (firstn 2 (skipn 24 body)).

Definition complete_message (msg : list byte) : Prop :=
  (8 <= length msg)%nat /\
  if Byte.eqb (nth 0 msg x00) MITCH_MSG_TYPE_ORDER_BOOK then
    nth 7 msg x00 = x01 /\
    Z.of_nat (length msg) = 8 + 32 + 4 * wire_num_ticks (skipn 8 msg)
  else
    Z.of_nat (length msg) = 8 + 32 * Z_of_byte (nth 7 msg x00).

(** The 256 bytes. *)
Definition all_bytes : list byte :=
  map (fun n => byte_of_Z (Z.of_nat n)) (seq 0 256).

(** *** Wire images

    The bytes of each body in wire order: every integer and every double
    pattern most significant byte first, in the order the packing
    functions store the fields. *)
Definition header_wire (header : MitchHeader.t) : list byte :=
  [MitchHeader.message_type header]
  ++ firstn 6 (MitchHeader.timestamp header)
  ++ [MitchHeader.count header].

Definition trade_wire (trade : Trade.t) : list byte :=
  be_bytes 8 (Trade.ticker_id trade)
  ++ be_bytes 8 (Trade.price trade)
  ++ be_bytes 4 (Trade.quantity trade)
  ++ be_bytes 4 (Trade.trade_id trade)
  ++ [Trade.side trade]
  ++ repeat x00 7.

Definition order_wire (order : Order.t) : list byte :=
  be_bytes 8 (Order.ticker_id order)
  ++ be_bytes 4 (Order.order_id order)
  ++ be_bytes 8 (Order.price order)
  ++ be_bytes 4 (Order.quantity order)
  ++ [Order.type_and_side order]
  ++ firstn 6 (Order.expiry order)
  ++ [Order.padding order].

Definition ticker_wire (ticker : Tick.t) : list byte :=
  be_bytes 8 (Tick.ticker_id ticker)
  ++ be_bytes 8 (Tick.bid_price ticker)
  ++ be_bytes 8 (Tick.ask_price ticker)
  ++ be_bytes 4 (Tick.bid_volume ticker)
  ++ be_bytes 4 (Tick.ask_volume ticker).

(** The volume entries the packing loop reads: indices [i] to
    [i + todo - 1] of the array, 0 past its end. *)
Definition volumes_wire (todo i : nat) (volumes : list Z) : list byte :=
  flat_map (fun j => be_bytes 4 (nth j volumes 0)) (seq i todo).

Definition order_book_wire (order_book : OrderBook.t) (volumes : list Z)
  : list byte :=
  be_bytes 8 (OrderBook.ticker_id order_book)
  ++ be_bytes 8 (OrderBook.first_tick order_book)
  ++ be_bytes 8 (OrderBook.tick_size order_book)
  ++ be_bytes 2 (OrderBook.num_ticks order_book)
  ++ [OrderBook.side order_book]
  ++ repeat x00 5
  ++ volumes_wire (Z.to_nat (OrderBook.num_ticks order_book)) 0 volumes.

(** The 40-byte trade message that [example_usage] builds, with a fixed
    timestamp, as a little-endian host packs it. *)
Definition example_header : list byte :=
  [x74; x00; x00; x00; x00; x00; x2a; x01].

Definition example_message : list byte :=
  example_header
  ++ load (fst (pack_trade_body (P := lp64_le) example_trade zero_mem 0))
       0 32.

(** An order-book message with two volume entries: 8 + 32 + 8 bytes. *)
Definition book_header : list byte :=
  [x71; x00; x00; x00; x00; x00; x2a; x01].

Definition book_prefix : list byte :=
  load (fst (pack_order_book_body (P := lp64_le) example_book [100; 200]
               zero_mem 0)) 0 32.

Definition book_volumes : list byte :=
  load (fst (pack_order_book_body (P := lp64_le) example_book [100; 200]
               zero_mem 0)) 32 8.

(** The headers of the two example messages as records. *)
Definition example_header_record : MitchHeader.t :=
  MitchHeader.mk MITCH_MSG_TYPE_TRADE [x00; x00; x00; x00; x00; x2a] x01.

Definition book_header_record : MitchHeader.t :=
  MitchHeader.mk MITCH_MSG_TYPE_ORDER_BOOK [x00; x00; x00; x00; x00; x2a] x01.

(** A sink that takes 3 bytes, then 10, then up to 101, in three calls,
    and one that takes 10 bytes and then stalls. *)
Definition example_sink : sink := mk_sink [Room 2; Room 9; Room 100] [].

Definition short_sink : sink := mk_sink [Room 9; Stall; Room 100] [].

(** An order-book prefix announcing 65535 volume entries. *)
Definition full_book_prefix : list byte :=
  repeat x00 24 ++ [xff; xff] ++ repeat x00 6.

(** A 32-byte order-book prefix announcing one volume entry, with no
    volume bytes after it. *)
Definition short_book_input : list byte :=
  repeat x00 24 ++ [x00; x01] ++ repeat x00 6.

(* ================================================================== *)
(** * Properties *)

(** ** Bytes and byte sequences *)

Lemma Z_of_byte_range (b : byte) : 0 <= Z_of_byte b < 256.
Proof.
  unfold Z_of_byte. pose proof (Byte.to_N_bounded b). lia.
Qed.

Lemma Z_of_byte_of_Z (x : Z) : Z_of_byte (byte_of_Z x) = x mod 256.
Proof.
  unfold Z_of_byte, byte_of_Z.
  pose proof (Z.mod_pos_bound x 256 ltac:(lia)) as Hr.
  destruct (Byte.of_N (Z.to_N (x mod 256))) as [b|] eqn:E.
  - apply Byte.to_of_N in E. rewrite E. lia.
  - apply Byte.of_N_None_iff in E. lia.
Qed.

Lemma byte_of_Z_of_byte (b : byte) : byte_of_Z (Z_of_byte b) = b.
Proof.
  unfold byte_of_Z.
  rewrite Z.mod_small by apply Z_of_byte_range.
  unfold Z_of_byte. rewrite N2Z.id, Byte.of_to_N. reflexivity.
Qed.

Lemma byte_of_Z_mod (x : Z) : byte_of_Z (x mod 256) = byte_of_Z x.
Proof. unfold byte_of_Z. rewrite Z.mod_mod by lia. reflexivity. Qed.

Lemma le_bytes_length (n : nat) (x : Z) : length (le_bytes n x) = n.
Proof.
  revert x. induction n as [|n IH]; intros x; simpl; [reflexivity|].
  now rewrite IH.
Qed.

Lemma be_bytes_length (n : nat) (x : Z) : length (be_bytes n x) = n.
Proof. unfold be_bytes. now rewrite length_rev, le_bytes_length. Qed.

Lemma le_value_range (l : list byte) :
  0 <= le_value l < 256 ^ Z.of_nat (length l).
Proof.
  induction l as [|b r IH]; [simpl; lia|].
  cbn [le_value length]. rewrite Nat2Z.inj_succ, Z.pow_succ_r by lia.
  pose proof (Z_of_byte_range b). lia.
Qed.

(** Splitting a value into bytes and reading them back. *)
Lemma le_bytes_le_value (l : list byte) : le_bytes (length l) (le_value l) = l.
Proof.
  induction l as [|b r IH]; [reflexivity|].
  pose proof (Z_of_byte_range b) as Hb.
  cbn [le_value length le_bytes]. f_equal.
  - rewrite byte_of_Z_mod.
    replace (Z_of_byte b + 256 * le_value r)
      with (Z_of_byte b + le_value r * 256) by lia.
    rewrite <- byte_of_Z_mod, Z.mod_add by lia.
    rewrite Z.mod_small by lia.
    apply byte_of_Z_of_byte.
  - replace (Z_of_byte b + 256 * le_value r)
      with (Z_of_byte b + le_value r * 256) by lia.
    rewrite Z.div_add by lia. rewrite Z.div_small by lia. exact IH.
Qed.

Lemma le_value_le_bytes (n : nat) (x : Z) :
  0 <= x < 256 ^ Z.of_nat n -> le_value (le_bytes n x) = x.
Proof.
  revert x. induction n as [|n IH]; intros x Hx.
  - simpl in *. lia.
  - cbn [le_bytes le_value].
    rewrite Nat2Z.inj_succ, Z.pow_succ_r in Hx by lia.
    rewrite Z_of_byte_of_Z, Z.mod_mod by lia.
    rewrite IH.
    + pose proof (Z.div_mod x 256 ltac:(lia)). lia.
    + split; [apply Z.div_pos; lia|].
      apply Z.div_lt_upper_bound; lia.
Qed.

Lemma be_value_be_bytes (n : nat) (x : Z) :
  0 <= x < 256 ^ Z.of_nat n -> be_value (be_bytes n x) = x.
Proof.
  intros Hx. unfold be_value, be_bytes.
  rewrite rev_involutive. now apply le_value_le_bytes.
Qed.

Lemma be_value_range (l : list byte) :
  0 <= be_value l < 256 ^ Z.of_nat (length l).
Proof.
  unfold be_value. rewrite <- (length_rev l). apply le_value_range.
Qed.

(** ** Memory *)

Section Memory.

Local Open Scope nat_scope.

Lemma store_same (m : mem) (p : nat) (b : byte) : store m p b p = b.
Proof. unfold store. now rewrite Nat.eqb_refl. Qed.

Lemma store_other (m : mem) (p q : nat) (b : byte) :
  q <> p -> store m p b q = m q.
Proof. intros H. unfold store. apply Nat.eqb_neq in H. now rewrite H. Qed.

Lemma write_bytes_outside (bs : list byte) (m : mem) (d q : nat) :
  (q < d \/ d + length bs <= q)%nat -> write_bytes m d bs q = m q.
Proof.
  revert m d. induction bs as [|b r IH]; intros m d H; [reflexivity|].
  cbn [write_bytes length] in *.
  rewrite IH by lia. apply store_other. lia.
Qed.

Lemma write_bytes_inside (bs : list byte) (m : mem) (d k : nat) :
  (k < length bs)%nat -> write_bytes m d bs (d + k) = nth k bs x00.
Proof.
  revert m d k. induction bs as [|b r IH]; intros m d k H; [simpl in H; lia|].
  cbn [write_bytes length] in *. destruct k as [|k].
  - rewrite write_bytes_outside by lia.
    rewrite Nat.add_0_r. apply store_same.
  - replace (d + S k)%nat with (S d + k)%nat by lia.
    rewrite IH by lia. reflexivity.
Qed.

Lemma write_bytes_app (l1 l2 : list byte) (m : mem) (d : nat) :
  write_bytes m d (l1 ++ l2)
  = write_bytes (write_bytes m d l1) (d + length l1) l2.
Proof.
  revert m d. induction l1 as [|b r IH]; intros m d.
  - simpl. now rewrite Nat.add_0_r.
  - cbn [app write_bytes length]. rewrite IH. f_equal. lia.
Qed.

Lemma load_length (m : mem) (s n : nat) : length (load m s n) = n.
Proof. unfold load. now rewrite length_map, length_seq. Qed.

Lemma load_ext (m m' : mem) (s n : nat) :
  (forall q, (s <= q < s + n)%nat -> m' q = m q) ->
  load m' s n = load m s n.
Proof.
  intros H. unfold load. apply map_ext_in.
  intros q Hq. apply in_seq in Hq. apply H. lia.
Qed.

Lemma load_store_disjoint (m : mem) (p : nat) (b : byte) (s n : nat) :
  (p < s \/ s + n <= p)%nat -> load (store m p b) s n = load m s n.
Proof.
  intros H. apply load_ext. intros q Hq. apply store_other. lia.
Qed.

Lemma load_write_bytes_disjoint (m : mem) (d : nat) (bs : list byte)
    (s n : nat) :
  (s + n <= d \/ d + length bs <= s)%nat ->
  load (write_bytes m d bs) s n = load m s n.
Proof.
  intros H. apply load_ext. intros q Hq. apply write_bytes_outside. lia.
Qed.

Lemma load_write_bytes_same (m : mem) (d : nat) (bs : list byte) (n : nat) :
  length bs = n -> load (write_bytes m d bs) d n = bs.
Proof.
  intros <-. unfold load.
  apply nth_ext with (d := x00) (d' := x00).
  - now rewrite length_map, length_seq.
  - intros k Hk. rewrite length_map, length_seq in Hk.
    rewrite (nth_indep _ x00 (write_bytes m d bs 0%nat))
      by now rewrite length_map, length_seq.
    rewrite map_nth, seq_nth by assumption.
    now apply write_bytes_inside.
Qed.

(** A prefix of what was written, read back. *)
Lemma load_write_bytes_prefix (m : mem) (d : nat) (bs : list byte) (n : nat) :
  (n <= length bs)%nat -> load (write_bytes m d bs) d n = firstn n bs.
Proof.
  intros H. rewrite <- (firstn_skipn n bs) at 1.
  rewrite write_bytes_app, load_write_bytes_disjoint
    by (rewrite length_firstn; lia).
  apply load_write_bytes_same. rewrite length_firstn. lia.
Qed.

(** Part of what was written, read back. *)
Lemma load_write_bytes_part (m : mem) (d : nat) (bs : list byte) (k n : nat) :
  k + n <= length bs ->
  load (write_bytes m d bs) (d + k) n = firstn n (skipn k bs).
Proof.
  intros H. rewrite <- (firstn_skipn k bs) at 1.
  rewrite write_bytes_app, length_firstn, Nat.min_l by lia.
  apply load_write_bytes_prefix. rewrite length_skipn. lia.
Qed.

End Memory.

(** ** Host representation against network order *)

Section Codec.

Context {P : Platform}.

Lemma object_repr_length (n : nat) (x : Z) : length (object_repr n x) = n.
Proof.
  unfold object_repr. destruct host_little_endian.
  - apply le_bytes_length.
  - apply be_bytes_length.
Qed.

(** Whatever the host's byte order, converting with [hton*] and copying
    the object puts the value on the wire most significant byte first. *)
Lemma object_repr_to_network (n : nat) (x : Z) :
  object_repr n (if host_little_endian then bswap n x else x) = be_bytes n x.
Proof.
  unfold object_repr, bswap. destruct host_little_endian; [|reflexivity].
  rewrite <- (le_bytes_length n x) at 1.
  rewrite <- length_rev. apply le_bytes_le_value.
Qed.

(** Conversely, copying [n] wire bytes into an object and converting with
    [ntoh*] yields their big-endian value. *)
Lemma object_value_from_network (n : nat) (l : list byte) :
  length l = n ->
  (if host_little_endian then bswap n (object_value l) else object_value l)
  = be_value l.
Proof.
  intros <-. unfold object_value, bswap, be_value.
  destruct host_little_endian; [|reflexivity].
  now rewrite le_bytes_le_value.
Qed.

Lemma memcpy_exact (m : mem) (d : nat) (src : list byte) (n : nat) :
  length src = n -> memcpy m d src n = write_bytes m d src.
Proof. intros <-. unfold memcpy. now rewrite firstn_all. Qed.

Lemma memcpy_htons (m : mem) (d : nat) (x : Z) :
  memcpy m d (object_repr 2 (htons x)) 2 = write_bytes m d (be_bytes 2 x).
Proof.
  rewrite memcpy_exact by apply object_repr_length.
  unfold htons. now rewrite object_repr_to_network.
Qed.

Lemma memcpy_htonl (m : mem) (d : nat) (x : Z) :
  memcpy m d (object_repr 4 (htonl x)) 4 = write_bytes m d (be_bytes 4 x).
Proof.
  rewrite memcpy_exact by apply object_repr_length.
  unfold htonl. now rewrite object_repr_to_network.
Qed.

Lemma memcpy_htobe64 (m : mem) (d : nat) (x : Z) :
  memcpy m d (object_repr 8 (htobe64 x)) 8 = write_bytes m d (be_bytes 8 x).
Proof.
  rewrite memcpy_exact by apply object_repr_length.
  unfold htobe64. now rewrite object_repr_to_network.
Qed.

Lemma write_double_be_wire (m : mem) (d : nat) (x : Z) :
  write_double_be m d x = write_bytes m d (be_bytes 8 x).
Proof. unfold write_double_be. apply memcpy_htobe64. Qed.

Lemma ntohs_load (m : mem) (p : nat) :
  ntohs (object_value (load m p 2)) = be_value (load m p 2).
Proof. unfold ntohs. apply object_value_from_network, load_length. Qed.

Lemma ntohl_load (m : mem) (p : nat) :
  ntohl (object_value (load m p 4)) = be_value (load m p 4).
Proof. unfold ntohl. apply object_value_from_network, load_length. Qed.

Lemma be64toh_load (m : mem) (p : nat) :
  be64toh (object_value (load m p 8)) = be_value (load m p 8).
Proof. unfold be64toh. apply object_value_from_network, load_length. Qed.

Lemma read_double_be_wire (m : mem) (p : nat) :
  read_double_be m p = be_value (load m p 8).
Proof. unfold read_double_be. apply be64toh_load. Qed.

Lemma u16_be (l : list byte) : length l = 2%nat -> u16 (be_value l).
Proof. intros H. pose proof (be_value_range l) as R. rewrite H in R. exact R. Qed.

End Codec.

(** ** Fixed-size bodies *)

Ltac mem_len :=
  rewrite ?be_bytes_length, ?repeat_length, ?length_firstn,
    ?object_repr_length, ?load_length;
  lia.

Ltac wire_form :=
  rewrite ?memcpy_htobe64, ?write_double_be_wire, ?memcpy_htonl,
    ?memcpy_htons, ?be64toh_load, ?read_double_be_wire, ?ntohl_load,
    ?ntohs_load;
  unfold memset, memcpy.

Ltac mem_simpl :=
  repeat first
    [ rewrite load_write_bytes_same by mem_len
    | rewrite load_write_bytes_disjoint by mem_len
    | rewrite load_store_disjoint by lia
    | rewrite store_same
    | rewrite write_bytes_outside by mem_len
    | rewrite store_other by lia ].

Section Bodies.

Context {P : Platform}.

Lemma trade_round_trip (trade : Trade.t) (m : mem) (buffer : nat) :
  Trade_valid trade ->
  unpack_trade_body (fst (pack_trade_body trade m buffer)) buffer
  = (Trade.mk (Trade.ticker_id trade) (Trade.price trade)
       (Trade.quantity trade) (Trade.trade_id trade) (Trade.side trade)
       (repeat x00 7),
     32).
Proof.
  intros (Hid & Hprice & Hq & Htid).
  cbv beta zeta delta [pack_trade_body unpack_trade_body fst].
  wire_form. mem_simpl.
  rewrite !be_value_be_bytes by assumption.
  reflexivity.
Qed.

Lemma order_round_trip (order : Order.t) (m : mem) (buffer : nat) :
  Order_valid order ->
  unpack_order_body (fst (pack_order_body order m buffer)) buffer
  = (order, 32).
Proof.
  intros (Hid & Hoid & Hprice & Hq & Hexp).
  destruct order as [ticker_id order_id price quantity ts expiry padding].
  cbn [Order.ticker_id Order.order_id Order.price Order.quantity
       Order.type_and_side Order.expiry Order.padding] in *.
  cbv beta zeta delta [pack_order_body unpack_order_body fst].
  cbn [Order.ticker_id Order.order_id Order.price Order.quantity
       Order.type_and_side Order.expiry Order.padding].
  wire_form. rewrite (firstn_all2 (n := 6%nat)) by lia. mem_simpl.
  rewrite !be_value_be_bytes by assumption.
  reflexivity.
Qed.

Lemma ticker_round_trip (ticker : Tick.t) (m : mem) (buffer : nat) :
  Tick_valid ticker ->
  unpack_ticker_body (fst (pack_ticker_body ticker m buffer)) buffer
  = (ticker, 32).
Proof.
  intros (Hid & Hbid & Hask & Hbv & Hav).
  destruct ticker as [ticker_id bid_price ask_price bid_volume ask_volume].
  cbn [Tick.ticker_id Tick.bid_price Tick.ask_price Tick.bid_volume
       Tick.ask_volume] in *.
  cbv beta zeta delta [pack_ticker_body unpack_ticker_body fst].
  cbn [Tick.ticker_id Tick.bid_price Tick.ask_price Tick.bid_volume
       Tick.ask_volume].
  wire_form. mem_simpl.
  rewrite !be_value_be_bytes by assumption.
  reflexivity.
Qed.

(** C4.  For every valid Trade, Order and Tick record, unpacking the 32
    bytes its packer wrote gives back every non-reserved field unchanged
    (both functions returning 32).  A double field is carried as its
    64-bit pattern and comes back as the same pattern, whatever it
    encodes: the theorem puts no condition on the pattern beyond its
    width, so NaN and infinity patterns are covered.  The Trade comes back
    with zeroed padding; Order and Tick come back whole. *)
Theorem fixed_bodies_round_trip
    (trade : Trade.t) (order : Order.t) (ticker : Tick.t)
    (m : mem) (buffer : nat) :
  Trade_valid trade -> Order_valid order -> Tick_valid ticker ->
  (let '(trade', n) :=
     unpack_trade_body (fst (pack_trade_body trade m buffer)) buffer in
   Trade.ticker_id trade' = Trade.ticker_id trade /\
   Trade.price trade' = Trade.price trade /\
   Trade.quantity trade' = Trade.quantity trade /\
   Trade.trade_id trade' = Trade.trade_id trade /\
   Trade.side trade' = Trade.side trade /\
   n = 32 /\ snd (pack_trade_body trade m buffer) = 32) /\
  (unpack_order_body (fst (pack_order_body order m buffer)) buffer
   = (order, 32) /\ snd (pack_order_body order m buffer) = 32) /\
  (unpack_ticker_body (fst (pack_ticker_body ticker m buffer)) buffer
   = (ticker, 32) /\ snd (pack_ticker_body ticker m buffer) = 32).
Proof.
  intros Ht Ho Hk. split; [|split].
  - rewrite trade_round_trip by assumption. cbn. repeat split.
  - split; [now apply order_round_trip | reflexivity].
  - split; [now apply ticker_round_trip | reflexivity].
Qed.

Lemma header_round_trip (header : MitchHeader.t) (m : mem) (buffer : nat) :
  length (MitchHeader.timestamp header) = 6%nat ->
  unpack_header (fst (pack_header header m buffer)) buffer = (header, 8).
Proof.
  intros Hts. destruct header as [message_type timestamp count].
  cbn [MitchHeader.timestamp] in Hts.
  cbv beta zeta delta [pack_header unpack_header fst].
  cbn [MitchHeader.message_type MitchHeader.timestamp MitchHeader.count].
  unfold memcpy. rewrite (firstn_all2 (n := 6%nat)) by lia. mem_simpl.
  reflexivity.
Qed.

(** The ticker id goes on the wire most significant byte first, whatever
    the host's byte order. *)
Lemma pack_trade_body_ticker_id (trade : Trade.t) (m : mem) (buffer : nat) :
  load (fst (pack_trade_body trade m buffer)) buffer 8
  = be_bytes 8 (Trade.ticker_id trade).
Proof.
  cbv beta zeta delta [pack_trade_body fst]. wire_form. mem_simpl.
  reflexivity.
Qed.

End Bodies.

(** ** Integer arithmetic *)

Lemma int_wrap_small (x : Z) : - 2 ^ 31 <= x < 2 ^ 31 -> int_wrap x = x.
Proof. intros H. unfold int_wrap. rewrite Z.mod_small; lia. Qed.

(** [32 + num_ticks * 4] in [int] arithmetic, for a 16-bit [num_ticks]. *)
Lemma int_order_book_length (num_ticks : Z) :
  u16 num_ticks -> int_add 32 (int_mul num_ticks 4) = 32 + 4 * num_ticks.
Proof.
  unfold u16. intros H. unfold int_add, int_mul.
  rewrite (int_wrap_small (num_ticks * 4)) by lia.
  rewrite int_wrap_small; lia.
Qed.

(** ** The order-book body *)

Section OrderBookBody.

Context {P : Platform}.

Lemma pack_volumes_outside (todo i : nat) (volumes : list Z) (m : mem)
    (ptr q : nat) :
  (q < ptr \/ ptr + 4 * todo <= q)%nat ->
  pack_volumes todo i volumes m ptr q = m q.
Proof.
  revert i m ptr. induction todo as [|todo IH]; intros i m ptr H.
  - reflexivity.
  - cbn [pack_volumes]. cbv zeta. rewrite IH by lia.
    rewrite memcpy_htonl. apply write_bytes_outside.
    rewrite be_bytes_length. lia.
Qed.

Lemma load_pack_volumes_below (todo i : nat) (volumes : list Z) (m : mem)
    (ptr s n : nat) :
  (s + n <= ptr)%nat ->
  load (pack_volumes todo i volumes m ptr) s n = load m s n.
Proof.
  intros H. apply load_ext. intros q Hq. apply pack_volumes_outside. lia.
Qed.

Lemma skipn_nth_cons {A} (l : list A) (i : nat) (d : A) :
  (i < length l)%nat -> skipn i l = nth i l d :: skipn (S i) l.
Proof.
  revert i. induction l as [|a l IH]; intros i H; [simpl in H; lia|].
  destruct i as [|i]; [reflexivity|].
  cbn [length] in H. cbn [skipn nth]. rewrite (IH i) by lia. reflexivity.
Qed.

(** What the unpacking loop reads back from what the packing loop wrote. *)
Lemma unpack_pack_volumes (todo i : nat) (volumes : list Z) (m : mem)
    (ptr : nat) :
  Forall u32 volumes ->
  (i + todo <= length volumes)%nat ->
  unpack_volumes todo (pack_volumes todo i volumes m ptr) ptr
  = firstn todo (skipn i volumes).
Proof.
  intros Hv. revert i m ptr.
  induction todo as [|todo IH]; intros i m ptr H; [reflexivity|].
  cbn [pack_volumes unpack_volumes]. cbv zeta.
  rewrite ntohl_load, memcpy_htonl.
  rewrite load_pack_volumes_below by lia.
  rewrite load_write_bytes_same by apply be_bytes_length.
  rewrite IH by lia.
  rewrite (skipn_nth_cons volumes i 0) by lia. cbn [firstn].
  rewrite be_value_be_bytes; [reflexivity|].
  rewrite Forall_forall in Hv. apply Hv, nth_In. lia.
Qed.

Lemma unpack_volumes_length (todo : nat) (m : mem) (ptr : nat) :
  length (unpack_volumes todo m ptr) = todo.
Proof.
  revert ptr. induction todo as [|todo IH]; intros ptr; [reflexivity|].
  cbn [unpack_volumes]. cbv zeta. cbn [length]. now rewrite IH.
Qed.

(** The unpacking loop looks at no byte outside its [4 * todo] bytes. *)
Lemma unpack_volumes_ext (todo : nat) (m m' : mem) (ptr : nat) :
  (forall q, (ptr <= q < ptr + 4 * todo)%nat -> m' q = m q) ->
  unpack_volumes todo m' ptr = unpack_volumes todo m ptr.
Proof.
  revert ptr. induction todo as [|todo IH]; intros ptr H; [reflexivity|].
  cbn [unpack_volumes]. cbv zeta.
  rewrite (load_ext m m' ptr 4) by (intros q Hq; apply H; lia).
  rewrite IH by (intros q Hq; apply H; lia).
  reflexivity.
Qed.

(** The record and length coming out of [unpack_order_book_body], written
    with the big-endian value of each field. *)
Lemma unpack_order_book_body_eq (m : mem) (buffer : nat) :
  let num_ticks := be_value (load m (buffer + 24) 2) in
  unpack_order_book_body m buffer
  = (OrderBook.mk
       (be_value (load m buffer 8))
       (be_value (load m (buffer + 8) 8))
       (be_value (load m (buffer + 16) 8))
       num_ticks
       (m (buffer + 26)%nat)
       (load m (buffer + 27) 5),
     unpack_volumes (Z.to_nat num_ticks) m (buffer + 32),
     32 + 4 * num_ticks).
Proof.
  cbv beta zeta delta [unpack_order_book_body].
  wire_form.
  replace (buffer + 8 + 8)%nat with (buffer + 16)%nat by lia.
  replace (buffer + 16 + 8)%nat with (buffer + 24)%nat by lia.
  replace (buffer + 24 + 2)%nat with (buffer + 26)%nat by lia.
  replace (buffer + 26 + 1)%nat with (buffer + 27)%nat by lia.
  replace (buffer + 27 + 5)%nat with (buffer + 32)%nat by lia.
  rewrite int_order_book_length by (apply u16_be, load_length).
  reflexivity.
Qed.

Lemma order_book_round_trip (order_book : OrderBook.t) (volumes : list Z)
    (m : mem) (buffer : nat) :
  OrderBook_valid order_book ->
  Forall u32 volumes ->
  length volumes = Z.to_nat (OrderBook.num_ticks order_book) ->
  unpack_order_book_body
    (fst (pack_order_book_body order_book volumes m buffer)) buffer
  = (OrderBook.mk (OrderBook.ticker_id order_book)
       (OrderBook.first_tick order_book) (OrderBook.tick_size order_book)
       (OrderBook.num_ticks order_book) (OrderBook.side order_book)
       (repeat x00 5),
     volumes,
     32 + 4 * OrderBook.num_ticks order_book).
Proof.
  intros (Hid & Hft & Hts & Hnt) Hv Hlen.
  cbv beta zeta delta [pack_order_book_body unpack_order_book_body fst].
  wire_form.
  rewrite !load_pack_volumes_below by lia.
  rewrite pack_volumes_outside by lia.
  mem_simpl.
  rewrite !be_value_be_bytes by assumption.
  rewrite unpack_pack_volumes by (assumption || lia).
  rewrite <- Hlen. cbn [skipn]. rewrite firstn_all.
  rewrite int_order_book_length by assumption.
  reflexivity.
Qed.

End OrderBookBody.

(** ** Claims about the body codecs *)

Section BodyClaims.

Context {P : Platform}.

(** C3.  For every OrderBook record and every volumes array of
    [num_ticks] 32-bit entries, unpacking what [pack_order_book_body]
    wrote gives back every non-reserved field of the record and the same
    volumes, and both functions return [32 + 4 * num_ticks].  The
    statement is for every [num_ticks] from 0 to 65535, so 0, 1, 500 and
    65535 are instances. *)
Theorem order_book_body_round_trip (order_book : OrderBook.t)
    (volumes : list Z) (m : mem) (buffer : nat) :
  OrderBook_valid order_book ->
  Forall u32 volumes ->
  Z.of_nat (length volumes) = OrderBook.num_ticks order_book ->
  let '(m', packed) := pack_order_book_body order_book volumes m buffer in
  let '(order_book', volumes', unpacked) :=
    unpack_order_book_body m' buffer in
  OrderBook.ticker_id order_book' = OrderBook.ticker_id order_book /\
  OrderBook.first_tick order_book' = OrderBook.first_tick order_book /\
  OrderBook.tick_size order_book' = OrderBook.tick_size order_book /\
  OrderBook.num_ticks order_book' = OrderBook.num_ticks order_book /\
  OrderBook.side order_book' = OrderBook.side order_book /\
  volumes' = volumes /\
  packed = 32 + 4 * OrderBook.num_ticks order_book /\
  unpacked = 32 + 4 * OrderBook.num_ticks order_book.
Proof.
  intros Hb Hv Hlen.
  destruct (pack_order_book_body order_book volumes m buffer)
    as [m' packed] eqn:Epack.
  assert (Hm : m' = fst (pack_order_book_body order_book volumes m buffer))
    by now rewrite Epack.
  assert (Hp : packed = 32 + 4 * OrderBook.num_ticks order_book).
  { replace packed
      with (snd (pack_order_book_body order_book volumes m buffer))
      by now rewrite Epack.
    cbv beta zeta delta [pack_order_book_body snd].
    apply int_order_book_length, Hb. }
  rewrite Hm, order_book_round_trip by (assumption || lia).
  cbn. repeat split. exact Hp.
Qed.

(** Bytes read most significant first are recovered from their value. *)
Lemma be_value_inj (l l' : list byte) :
  length l = length l' -> be_value l = be_value l' -> l = l'.
Proof.
  unfold be_value. intros Hl H.
  apply (f_equal (le_bytes (length (rev l)))) in H.
  rewrite le_bytes_le_value in H.
  rewrite length_rev, Hl, <- length_rev, le_bytes_le_value in H.
  rewrite <- (rev_involutive l), H. apply rev_involutive.
Qed.

Lemma load_eq_inv (m m' : mem) (p n : nat) :
  load m' p n = load m p n ->
  forall q, (p <= q < p + n)%nat -> m' q = m q.
Proof.
  unfold load. intros H q Hq.
  rewrite map_ext_in_iff in H. apply H.
  apply in_seq. lia.
Qed.

Lemma be_value_load_inv (m m' : mem) (p n : nat) :
  be_value (load m' p n) = be_value (load m p n) ->
  forall q, (p <= q < p + n)%nat -> m' q = m q.
Proof.
  intros H. apply load_eq_inv, be_value_inj; [|exact H].
  now rewrite !load_length.
Qed.

(** The unpacking loop looks at every one of its [4 * todo] bytes: the
    entries it produces fix them all. *)
Lemma unpack_volumes_inv (todo : nat) (m m' : mem) (ptr : nat) :
  unpack_volumes todo m' ptr = unpack_volumes todo m ptr ->
  forall q, (ptr <= q < ptr + 4 * todo)%nat -> m' q = m q.
Proof.
  revert ptr. induction todo as [|todo IH]; intros ptr H q Hq; [lia|].
  cbn [unpack_volumes] in H. cbv zeta in H. rewrite !ntohl_load in H.
  injection H as Hhead Htail.
  destruct (Nat.lt_ge_cases q (ptr + 4)) as [Hlo|Hhi].
  - apply (be_value_load_inv m m' ptr 4 Hhead). lia.
  - apply (IH (ptr + 4)%nat Htail). lia.
Qed.

(** C1, as amended.  [unpack_order_book_body] is given no input length
    and makes no length check.  For every buffer, with [num_ticks] the
    16-bit big-endian value at bytes 24-25, it returns
    [32 + 4 * num_ticks], which is positive and never an error value,
    together with exactly [num_ticks] volumes.  Its result is determined
    by the first [32 + 4 * num_ticks] bytes at the buffer and by every
    one of them: another memory gives the same result exactly when it
    holds the same bytes there.  So the function reads all of these bytes
    and no other, and it stays within the supplied input only when the
    input holds at least [32 + 4 * num_ticks] bytes. *)
Theorem unpack_order_book_body_unchecked (m m' : mem) (buffer : nat) :
  let num_ticks := be_value (load m (buffer + 24) 2) in
  let '(order_book, volumes, ret) := unpack_order_book_body m buffer in
  OrderBook.num_ticks order_book = num_ticks /\
  0 <= num_ticks <= 65535 /\
  ret = 32 + 4 * num_ticks /\
  Z.of_nat (length volumes) = num_ticks /\
  ((forall q, (buffer <= q < buffer + (32 + 4 * Z.to_nat num_ticks))%nat ->
              m' q = m q)
   <-> unpack_order_book_body m' buffer = unpack_order_book_body m buffer).
Proof.
  intros num_ticks.
  assert (Hnt : u16 num_ticks) by apply u16_be, load_length.
  pose proof (unpack_order_book_body_eq m' buffer) as E'. cbv zeta in E'.
  rewrite (unpack_order_book_body_eq m buffer). fold num_ticks.
  unfold u16 in Hnt.
  split; [reflexivity|]. split; [lia|]. split; [reflexivity|].
  split; [rewrite unpack_volumes_length; lia|].
  split.
  - (* the same bytes give the same result *)
    intros H.
    assert (E : be_value (load m' (buffer + 24) 2) = num_ticks).
    { unfold num_ticks.
      rewrite (load_ext m m') by (intros q Hq; apply H; lia). reflexivity. }
    rewrite E', E.
    rewrite !(load_ext m m') by (intros q Hq; apply H; lia).
    rewrite (H (buffer + 26)%nat) by lia.
    rewrite (unpack_volumes_ext _ m m') by (intros q Hq; apply H; lia).
    reflexivity.
  - (* the same result is given by the same bytes only *)
    intros H. rewrite E' in H.
    pose proof (f_equal (fun r => fst (fst r)) H) as Hrec.
    pose proof (f_equal (fun r => snd (fst r)) H) as Hvol.
    cbn [fst snd] in Hrec, Hvol.
    pose proof (f_equal OrderBook.ticker_id Hrec) as Hid.
    pose proof (f_equal OrderBook.first_tick Hrec) as Hft.
    pose proof (f_equal OrderBook.tick_size Hrec) as Hts.
    pose proof (f_equal OrderBook.num_ticks Hrec) as Hn.
    pose proof (f_equal OrderBook.side Hrec) as Hside.
    pose proof (f_equal OrderBook.padding Hrec) as Hpad.
    cbn [OrderBook.ticker_id OrderBook.first_tick OrderBook.tick_size
         OrderBook.num_ticks OrderBook.side OrderBook.padding]
      in Hid, Hft, Hts, Hn, Hside, Hpad.
    rewrite Hn in Hvol.
    pose proof (be_value_load_inv m m' buffer 8 Hid) as B0.
    pose proof (be_value_load_inv m m' (buffer + 8) 8 Hft) as B8.
    pose proof (be_value_load_inv m m' (buffer + 16) 8 Hts) as B16.
    pose proof (be_value_load_inv m m' (buffer + 24) 2 Hn) as B24.
    pose proof (load_eq_inv m m' (buffer + 27) 5 Hpad) as B27.
    pose proof (unpack_volumes_inv _ m m' (buffer + 32) Hvol) as B32.
    intros q Hq.
    destruct (Nat.lt_ge_cases q (buffer + 8)); [apply B0; lia|].
    destruct (Nat.lt_ge_cases q (buffer + 16)); [apply B8; lia|].
    destruct (Nat.lt_ge_cases q (buffer + 24)); [apply B16; lia|].
    destruct (Nat.lt_ge_cases q (buffer + 26)); [apply B24; lia|].
    destruct (Nat.eq_dec q (buffer + 26)) as [->|]; [exact Hside|].
    destruct (Nat.lt_ge_cases q (buffer + 32)); [apply B27; lia|].
    apply B32. lia.
Qed.

(** The zero padding of [pack_trade_body]: bytes 25-31. *)
Lemma pack_trade_body_padding (trade : Trade.t) (m : mem) (buffer : nat) :
  load (fst (pack_trade_body trade m buffer)) (buffer + 25) 7 = repeat x00 7.
Proof.
  cbv beta zeta delta [pack_trade_body fst]. wire_form.
  replace (buffer + 8 + 8 + 4 + 4 + 1)%nat with (buffer + 25)%nat by lia.
  mem_simpl. reflexivity.
Qed.

(** The zero padding of [pack_order_book_body]: bytes 27-31. *)
Lemma pack_order_book_body_padding (order_book : OrderBook.t)
    (volumes : list Z) (m : mem) (buffer : nat) :
  load (fst (pack_order_book_body order_book volumes m buffer))
    (buffer + 27) 5
  = repeat x00 5.
Proof.
  cbv beta zeta delta [pack_order_book_body fst]. wire_form.
  rewrite load_pack_volumes_below by lia.
  replace (buffer + 8 + 8 + 8 + 2 + 1)%nat with (buffer + 27)%nat by lia.
  mem_simpl. reflexivity.
Qed.

(** [pack_order_body] stores the record's own padding byte at byte 31. *)
Lemma pack_order_body_padding (order : Order.t) (m : mem) (buffer : nat) :
  fst (pack_order_body order m buffer) (buffer + 31)%nat
  = Order.padding order.
Proof.
  cbv beta zeta delta [pack_order_body fst].
  replace (buffer + 8 + 4 + 8 + 4 + 1 + 6)%nat with (buffer + 31)%nat by lia.
  apply store_same.
Qed.

(** C8 at its failing input.  Packing an order whose padding field holds
    0xFF leaves 0xFF, not zero, in the reserved byte 31 of the output,
    on every host and whatever the buffer held before. *)
Theorem pack_order_body_padding_not_zeroed (m : mem) (buffer : nat) :
  fst (pack_order_body padded_order m buffer) (buffer + 31)%nat = xff.
Proof. apply pack_order_body_padding. Qed.

End BodyClaims.

(** ** Receiving from the stream *)

Section Stream.

Local Open Scope nat_scope.

(** One turn of the loop of [mitch_recv_tcp]. *)
Lemma mitch_recv_tcp_loop_step (s : socket) (m : mem)
    (buffer total_received length : nat) :
  mitch_recv_tcp_loop s m buffer total_received length
  = if total_received <? length then
      let '(received, s', m') :=
        recv s m (buffer + total_received) (length - total_received) in
      if (received <=? 0)%Z then ((-1)%Z, s', m')
      else mitch_recv_tcp_loop s' m' buffer
             (total_received + Z.to_nat received) length
    else (0%Z, s, m).
Proof.
  rewrite mitch_recv_tcp_loop_equation_1.
  destruct (lt_dec total_received length) as [Hlt|Hge].
  - apply Nat.ltb_lt in Hlt as Hb. rewrite Hb. cbn.
    destruct (recv s m (buffer + total_received) (length - total_received))
      as [[received s'] m'].
    cbn. destruct (Z_le_gt_dec received 0) as [Hle|Hgt]; cbn.
    + apply Z.leb_le in Hle. now rewrite Hle.
    + assert (Hb' : (received <=? 0)%Z = false) by (apply Z.leb_gt; lia).
      now rewrite Hb'.
  - assert (Hb : (total_received <? length) = false)
      by (apply Nat.ltb_ge; lia).
    now rewrite Hb.
Qed.

Lemma advance_0 (s : socket) : advance s 0 = s.
Proof. destruct s; reflexivity. Qed.

(** When the stream can deliver what is still missing, the loop ends with
    0, having taken exactly those bytes and stored them in order. *)
Lemma mitch_recv_tcp_loop_ok (s : socket) (m : mem)
    (buffer total_received length : nat) :
  length - total_received <= List.length (deliverable s) ->
  mitch_recv_tcp_loop s m buffer total_received length
  = (0%Z, advance s (length - total_received),
     write_bytes m (buffer + total_received)
       (firstn (length - total_received) (deliverable s))).
Proof.
  revert m total_received.
  induction s as [|e s' IH]; intros m total H;
    rewrite mitch_recv_tcp_loop_step;
    destruct (Nat.ltb_spec total length) as [Hlt|Hge].
  - simpl in H. lia.
  - replace (length - total) with 0 by lia. reflexivity.
  - destruct e as [b bs|]; [|simpl in H; lia].
    cbn [recv deliverable] in *.
    remember (b :: bs) as seg eqn:Eseg.
    assert (Hseg : 0 < List.length seg) by (subst seg; simpl; lia).
    set (k := length - total) in *.
    assert (Hk : 0 < k) by (unfold k; lia).
    assert (Hrecv : (Z.of_nat (List.length (firstn k seg)) <=? 0)%Z = false).
    { apply Z.leb_gt. rewrite length_firstn. lia. }
    rewrite Hrecv, Nat2Z.id, length_firstn.
    destruct (Nat.le_gt_cases k (List.length seg)) as [Hin|Hout].
    + (* the segment covers the rest of the request *)
      rewrite Nat.min_l by lia.
      rewrite mitch_recv_tcp_loop_step.
      assert (Hdone : (total + k <? length) = false)
        by (apply Nat.ltb_ge; unfold k; lia).
      rewrite Hdone. rewrite firstn_app.
      replace (k - List.length seg) with 0 by lia.
      cbn [firstn]. rewrite app_nil_r.
      f_equal. f_equal.
      destruct k as [|k']; [lia|]. cbn [advance]. rewrite <- Eseg.
      destruct (skipn (S k') seg) eqn:Eskip; [|reflexivity].
      replace (S k' - List.length seg) with 0 by lia.
      now rewrite advance_0.
    + (* the whole segment is taken and the loop goes on *)
      rewrite Nat.min_r by lia.
      rewrite firstn_all2 by lia. rewrite skipn_all2 by lia.
      rewrite IH by (rewrite length_app in H; unfold k in *; lia).
      replace (length - (total + List.length seg))
        with (k - List.length seg) by (unfold k; lia).
      rewrite firstn_app, (firstn_all2 (n := k) seg) by lia.
      rewrite write_bytes_app.
      replace (buffer + (total + List.length seg))
        with (buffer + total + List.length seg) by lia.
      f_equal. f_equal.
      destruct k as [|k']; [lia|]. cbn [advance]. rewrite <- Eseg.
      rewrite skipn_all2 by lia. reflexivity.
  - replace (length - total) with 0 by lia. cbn [firstn write_bytes].
    now rewrite advance_0.
Qed.

(** When the stream fails or closes before the requested bytes are there,
    the loop ends with -1. *)
Lemma mitch_recv_tcp_loop_fail (s : socket) (m : mem)
    (buffer total_received length : nat) :
  List.length (deliverable s) < length - total_received ->
  fst (fst (mitch_recv_tcp_loop s m buffer total_received length)) = (-1)%Z.
Proof.
  revert m total_received.
  induction s as [|e s' IH]; intros m total H;
    rewrite mitch_recv_tcp_loop_step;
    destruct (Nat.ltb_spec total length) as [Hlt|Hge]; try lia.
  - reflexivity.
  - destruct e as [b bs|]; [|reflexivity].
    cbn [recv deliverable] in *.
    remember (b :: bs) as seg eqn:Eseg.
    assert (Hseg : 0 < List.length seg) by (subst seg; simpl; lia).
    rewrite length_app in H.
    assert (Hrecv : (Z.of_nat (List.length (firstn (length - total) seg))
                     <=? 0)%Z = false).
    { apply Z.leb_gt. rewrite length_firstn. lia. }
    rewrite Hrecv, Nat2Z.id, length_firstn.
    rewrite Nat.min_r by lia. rewrite skipn_all2 by lia.
    apply IH. lia.
Qed.

Lemma mitch_recv_tcp_ok (s : socket) (m : mem) (buffer length : nat) :
  length <= List.length (deliverable s) ->
  mitch_recv_tcp s m buffer length
  = (0%Z, advance s length,
     write_bytes m buffer (firstn length (deliverable s))).
Proof.
  intros H. unfold mitch_recv_tcp.
  rewrite mitch_recv_tcp_loop_ok by lia.
  now rewrite Nat.sub_0_r, Nat.add_0_r.
Qed.

Lemma mitch_recv_tcp_fail (s : socket) (m : mem) (buffer length : nat) :
  List.length (deliverable s) < length ->
  fst (fst (mitch_recv_tcp s m buffer length)) = (-1)%Z.
Proof.
  intros H. unfold mitch_recv_tcp. apply mitch_recv_tcp_loop_fail. lia.
Qed.

(** Taking [n] bytes leaves the rest of what the stream delivers. *)
Lemma deliverable_advance (s : socket) (n : nat) :
  n <= List.length (deliverable s) ->
  deliverable (advance s n) = skipn n (deliverable s).
Proof.
  revert n. induction s as [|e s' IH]; intros n H.
  - destruct n; reflexivity.
  - destruct n as [|n']; [reflexivity|].
    destruct e as [b bs|]; [|simpl in H; lia].
    cbn [advance deliverable] in *.
    remember (b :: bs) as seg eqn:Eseg.
    rewrite length_app in H. rewrite skipn_app.
    destruct (skipn (S n') seg) as [|c cs] eqn:Eskip.
    + assert (List.length seg <= S n').
      { pose proof (length_skipn (S n') seg) as L. rewrite Eskip in L.
        simpl in L. lia. }
      rewrite IH by lia. reflexivity.
    + assert (S n' < List.length seg).
      { pose proof (length_skipn (S n') seg) as L. rewrite Eskip in L.
        simpl in L. lia. }
      replace (S n' - List.length seg) with 0 by lia.
      reflexivity.
Qed.

(** Whether it succeeds or not, the loop stores only inside the part of
    the buffer it was asked to fill. *)
Lemma mitch_recv_tcp_loop_outside (s : socket) (m : mem)
    (buffer total_received length q : nat) :
  q < buffer + total_received \/ buffer + length <= q ->
  snd (mitch_recv_tcp_loop s m buffer total_received length) q = m q.
Proof.
  revert m total_received.
  induction s as [|e s' IH]; intros m total H;
    rewrite mitch_recv_tcp_loop_step;
    destruct (Nat.ltb_spec total length) as [Hlt|Hge]; try reflexivity.
  destruct e as [b bs|]; [|reflexivity].
  cbn [recv].
  remember (b :: bs) as seg eqn:Eseg.
  assert (Hseg : 0 < List.length seg) by (subst seg; simpl; lia).
  assert (Hrecv : (Z.of_nat (List.length (firstn (length - total) seg))
                   <=? 0)%Z = false).
  { apply Z.leb_gt. rewrite length_firstn. lia. }
  rewrite Hrecv, Nat2Z.id.
  assert (Hw : write_bytes m (buffer + total) (firstn (length - total) seg) q
               = m q).
  { apply write_bytes_outside. rewrite length_firstn. lia. }
  destruct (skipn (length - total) seg) as [|c cs] eqn:Eskip.
  - rewrite IH by (rewrite length_firstn; lia). exact Hw.
  - assert (length - total < List.length seg).
    { pose proof (length_skipn (length - total) seg) as L.
      rewrite Eskip in L. simpl in L. lia. }
    rewrite mitch_recv_tcp_loop_step.
    assert (Hdone : (total + List.length (firstn (length - total) seg)
                     <? length) = false)
      by (apply Nat.ltb_ge; rewrite length_firstn; lia).
    rewrite Hdone. exact Hw.
Qed.

Lemma mitch_recv_tcp_outside (s : socket) (m : mem)
    (buffer length q : nat) :
  q < buffer \/ buffer + length <= q ->
  snd (mitch_recv_tcp s m buffer length) q = m q.
Proof.
  intros H. unfold mitch_recv_tcp. apply mitch_recv_tcp_loop_outside. lia.
Qed.

Lemma advance_add (s : socket) (a b : nat) :
  advance (advance s a) b = advance s (a + b).
Proof.
  revert a b. induction s as [|e s' IH]; intros a b.
  - destruct a, b; reflexivity.
  - destruct a as [|a']; [reflexivity|].
    destruct e as [c0 bs|]; [|destruct b; reflexivity].
    cbn [advance Nat.add].
    remember (c0 :: bs) as seg eqn:Eseg.
    destruct (skipn (S a') seg) as [|c cs] eqn:Ea.
    + assert (La : List.length seg <= S a').
      { pose proof (length_skipn (S a') seg) as L. rewrite Ea in L.
        simpl in L. lia. }
      rewrite IH. rewrite skipn_all2 by lia.
      f_equal. lia.
    + assert (La : S a' < List.length seg).
      { pose proof (length_skipn (S a') seg) as L. rewrite Ea in L.
        simpl in L. lia. }
      destruct b as [|b'].
      * rewrite Nat.add_0_r, Ea. reflexivity.
      * cbn [advance]. rewrite <- Ea, skipn_skipn.
        replace (S b' + S a') with (S (a' + S b')) by lia.
        destruct (skipn (S (a' + S b')) seg) as [|d ds] eqn:Eab;
          [|reflexivity].
        f_equal.
        assert (List.length seg <= S (a' + S b')).
        { pose proof (length_skipn (S (a' + S b')) seg) as L.
          rewrite Eab in L. simpl in L. lia. }
        rewrite length_skipn. lia.
Qed.

(** Cutting a message into partial reads changes nothing in what the
    stream delivers. *)
Lemma deliverable_split_stream (sizes : list nat) (bytes : list byte) :
  deliverable (split_stream sizes bytes) = bytes.
Proof.
  revert bytes. induction sizes as [|n sizes IH]; intros bytes.
  - destruct bytes as [|b bs]; [reflexivity|].
    cbn. now rewrite app_nil_r.
  - cbn [split_stream].
    destruct (firstn n bytes) as [|b bs] eqn:E.
    + rewrite IH. rewrite <- (firstn_skipn n bytes) at 2. now rewrite E.
    + cbn [deliverable]. rewrite IH, <- E. apply firstn_skipn.
Qed.

End Stream.

(** ** The message reader *)

Lemma firstn_app_exact {A} (l1 l2 : list A) (n : nat) :
  length l1 = n -> firstn n (l1 ++ l2) = l1.
Proof.
  intros <-. rewrite firstn_app, Nat.sub_diag, firstn_all. cbn [firstn].
  apply app_nil_r.
Qed.

Lemma skipn_app_exact {A} (l1 l2 : list A) (n : nat) :
  length l1 = n -> skipn n (l1 ++ l2) = l2.
Proof.
  intros <-. rewrite skipn_app, Nat.sub_diag, skipn_all. reflexivity.
Qed.

Section Reader.

Context {P : Platform}.

Lemma size_wrap_small (x : Z) : 0 <= x < 2 ^ 32 -> size_wrap x = x.
Proof.
  intros H. unfold size_wrap. apply Z.mod_small.
  pose proof (@size_bits_ge P) as Hge.
  pose proof (Z.pow_le_mono_r 2 32 size_bits) as Hpow. lia.
Qed.

(** [count * 32] and [8 + count * 32] in [size_t] arithmetic. *)
Lemma size_fixed_body (count : byte) :
  size_mul (Z_of_byte count) 32 = 32 * Z_of_byte count /\
  size_add 8 (size_mul (Z_of_byte count) 32) = 8 + 32 * Z_of_byte count.
Proof.
  pose proof (Z_of_byte_range count) as R. unfold size_add, size_mul.
  rewrite (size_wrap_small (Z_of_byte count * 32)) by lia.
  rewrite size_wrap_small by lia. lia.
Qed.

(** [num_ticks * 4], [32 + num_ticks * 4] and [8 + 32 + num_ticks * 4] in
    [size_t] arithmetic, for a 16-bit [num_ticks]. *)
Lemma size_order_book_body (num_ticks : Z) :
  u16 num_ticks ->
  size_mul num_ticks 4 = 4 * num_ticks /\
  size_add 32 (size_mul num_ticks 4) = 32 + 4 * num_ticks /\
  size_add 8 (size_add 32 (size_mul num_ticks 4)) = 8 + 32 + 4 * num_ticks.
Proof.
  unfold u16. intros R. unfold size_add, size_mul.
  rewrite (size_wrap_small (num_ticks * 4)) by lia.
  rewrite (size_wrap_small (32 + num_ticks * 4)) by lia.
  rewrite size_wrap_small by lia. lia.
Qed.

(** The function up to the point where the header has been read from a
    stream that delivers it. *)
Lemma mitch_recv_message_header (s : socket) (m : mem) (buffer : nat)
    (buffer_size : Z) (hdr rest : list byte) :
  deliverable s = hdr ++ rest ->
  length hdr = 8%nat ->
  mitch_recv_tcp s m buffer 8 = (0, advance s 8, write_bytes m buffer hdr) /\
  deliverable (advance s 8) = rest /\
  MitchHeader.message_type
    (fst (unpack_header (write_bytes m buffer hdr) buffer)) = nth 0 hdr x00 /\
  MitchHeader.count
    (fst (unpack_header (write_bytes m buffer hdr) buffer)) = nth 7 hdr x00.
Proof.
  intros Hs Hlen.
  assert (H8 : (8 <= length (deliverable s))%nat)
    by (rewrite Hs, length_app; lia).
  repeat split.
  - rewrite mitch_recv_tcp_ok by exact H8.
    now rewrite Hs, firstn_app_exact.
  - rewrite deliverable_advance by exact H8.
    now rewrite Hs, skipn_app_exact.
  - cbn. apply write_bytes_inside. lia.
  - cbn. apply write_bytes_inside. lia.
Qed.

Ltac read_header Hs Hlen :=
  let H1 := fresh in
  let H2 := fresh in
  let H3 := fresh in
  let H4 := fresh in
  match type of Hs with
  | deliverable ?s = ?hdr ++ ?rest =>
      match goal with
      | |- context [mitch_recv_message s ?m ?buffer ?size] =>
          destruct (mitch_recv_message_header s m buffer size hdr rest
                      Hs Hlen) as (H1 & H2 & H3 & H4);
          unfold mitch_recv_message;
          rewrite H1; cbv beta iota; rewrite Z.eqb_refl; cbn [negb];
          rewrite H3, H4
      end
  end.

(** C5.  When the stream delivers a header with tag 'q' and a count other
    than 1, [mitch_recv_message] returns -3; the stream has given up its
    8 header bytes and nothing else, and the header is all that was
    stored. *)
Theorem order_book_count_rejected (s : socket) (m : mem) (buffer : nat)
    (buffer_size : Z) (hdr rest : list byte) :
  deliverable s = hdr ++ rest ->
  length hdr = 8%nat ->
  nth 0 hdr x00 = MITCH_MSG_TYPE_ORDER_BOOK ->
  nth 7 hdr x00 <> x01 ->
  mitch_recv_message s m buffer buffer_size
  = (-3, advance s 8, write_bytes m buffer hdr) /\
  deliverable (advance s 8) = rest.
Proof.
  intros Hs Hlen Htag Hcount.
  split; [|now apply (mitch_recv_message_header s m buffer buffer_size hdr)].
  read_header Hs Hlen.
  rewrite Htag. cbn [Byte.eqb MITCH_MSG_TYPE_ORDER_BOOK].
  assert (Hne : (Z_of_byte (nth 7 hdr x00) =? 1) = false).
  { apply Z.eqb_neq. intros E. apply Hcount.
    rewrite <- (byte_of_Z_of_byte (nth 7 hdr x00)), E. reflexivity. }
  rewrite Hne. reflexivity.
Qed.

(** C6.  When the stream delivers the header of a fixed-type message
    (any tag other than 'q') whose total size [8 + 32 * count] exceeds
    [buffer_size], [mitch_recv_message] returns -2 straight after the
    header: the stream has given up its 8 header bytes only, and no byte
    of the buffer from offset 8 on has been stored to.  A trade message
    of 40 bytes against [buffer_size = 39] is the instance
    [count = 1]. *)
Theorem fixed_message_buffer_too_small (s : socket) (m : mem) (buffer : nat)
    (buffer_size : Z) (hdr rest : list byte) :
  deliverable s = hdr ++ rest ->
  length hdr = 8%nat ->
  nth 0 hdr x00 <> MITCH_MSG_TYPE_ORDER_BOOK ->
  buffer_size < 8 + 32 * Z_of_byte (nth 7 hdr x00) ->
  let '(ret, s', m') := mitch_recv_message s m buffer buffer_size in
  ret = -2 /\
  s' = advance s 8 /\ deliverable s' = rest /\
  load m' buffer 8 = hdr /\
  forall q, (q < buffer \/ buffer + 8 <= q)%nat -> m' q = m q.
Proof.
  intros Hs Hlen Htag Hsize.
  pose proof (mitch_recv_message_header s m buffer buffer_size hdr rest
                Hs Hlen) as (_ & Hrest & _).
  read_header Hs Hlen.
  assert (Hb : Byte.eqb (nth 0 hdr x00) MITCH_MSG_TYPE_ORDER_BOOK = false).
  { destruct (Byte.eqb _ _) eqn:E; [|reflexivity].
    apply Byte.byte_dec_bl in E. contradiction. }
  rewrite Hb.
  destruct (size_fixed_body (nth 7 hdr x00)) as [_ E8]. rewrite E8.
  assert (Hgt : (8 + 32 * Z_of_byte (nth 7 hdr x00) >? buffer_size) = true)
    by (apply Z.gtb_lt; lia).
  rewrite Hgt.
  repeat split.
  - exact Hrest.
  - now apply load_write_bytes_same.
  - intros q Hq. apply write_bytes_outside. lia.
Qed.

(** C10.  When the stream delivers a header with any tag other than 'q'
    and count 0, and [buffer_size] is at least 8, [mitch_recv_message]
    returns 8: the message is accepted, not rejected, the stream has given
    up its 8 header bytes only, and no byte of the buffer from offset 8
    on has been stored to. *)
Theorem zero_count_accepted (s : socket) (m : mem) (buffer : nat)
    (buffer_size : Z) (hdr rest : list byte) :
  deliverable s = hdr ++ rest ->
  length hdr = 8%nat ->
  nth 0 hdr x00 <> MITCH_MSG_TYPE_ORDER_BOOK ->
  nth 7 hdr x00 = x00 ->
  8 <= buffer_size ->
  let '(ret, s', m') := mitch_recv_message s m buffer buffer_size in
  ret = 8 /\
  s' = advance s 8 /\ deliverable s' = rest /\
  load m' buffer 8 = hdr /\
  forall q, (q < buffer \/ buffer + 8 <= q)%nat -> m' q = m q.
Proof.
  intros Hs Hlen Htag Hcount Hsize.
  pose proof (mitch_recv_message_header s m buffer buffer_size hdr rest
                Hs Hlen) as (_ & Hrest & _).
  read_header Hs Hlen.
  assert (Hb : Byte.eqb (nth 0 hdr x00) MITCH_MSG_TYPE_ORDER_BOOK = false).
  { destruct (Byte.eqb _ _) eqn:E; [|reflexivity].
    apply Byte.byte_dec_bl in E. contradiction. }
  rewrite Hb.
  destruct (size_fixed_body (nth 7 hdr x00)) as [E0 E8]. rewrite E8, E0.
  rewrite Hcount. change (Z_of_byte x00) with 0.
  assert (Hgt : (8 + 32 * 0 >? buffer_size) = false)
    by (rewrite Z.gtb_ltb; apply Z.ltb_ge; lia).
  rewrite Hgt. change (32 * 0 >? 0) with false. cbv iota.
  repeat split.
  - exact Hrest.
  - now apply load_write_bytes_same.
  - intros q Hq. apply write_bytes_outside. lia.
Qed.

(** The order-book path once header and fixed prefix have arrived: the
    prefix is in the buffer and off the stream, and what is left is the
    size check and the read of the volumes. *)
Lemma mitch_recv_message_order_book (s : socket) (m : mem) (buffer : nat)
    (buffer_size : Z) (hdr prefix rest : list byte) :
  deliverable s = hdr ++ prefix ++ rest ->
  length hdr = 8%nat ->
  length prefix = 32%nat ->
  nth 0 hdr x00 = MITCH_MSG_TYPE_ORDER_BOOK ->
  nth 7 hdr x00 = x01 ->
  let num_ticks := wire_num_ticks prefix in
  let s2 := advance s 40 in
  let m2 := write_bytes m buffer (hdr ++ prefix) in
  u16 num_ticks /\
  deliverable s2 = rest /\
  mitch_recv_message s m buffer buffer_size
  = if 8 + 32 + 4 * num_ticks >? buffer_size then (-2, s2, m2)
    else if 4 * num_ticks >? 0 then
      let '(r, s3, m3) :=
        mitch_recv_tcp s2 m2 (buffer + 40) (Z.to_nat (4 * num_ticks)) in
      if negb (r =? 0) then (-1, s3, m3)
      else (8 + 32 + 4 * num_ticks, s3, m3)
    else (8 + 32 + 4 * num_ticks, s2, m2).
Proof.
  intros Hs Hlen Hplen Htag Hcount num_ticks s2 m2.
  assert (Hnt : u16 num_ticks).
  { apply u16_be. rewrite length_firstn, length_skipn. lia. }
  pose proof (mitch_recv_message_header s m buffer buffer_size hdr
                (prefix ++ rest) Hs Hlen) as (_ & Hrest & _).
  assert (H32 : (32 <= length (deliverable (advance s 8)))%nat)
    by (rewrite Hrest, length_app; lia).
  split; [exact Hnt|]. split.
  { unfold s2. change 40%nat with (8 + 32)%nat. rewrite <- advance_add.
    rewrite deliverable_advance by exact H32.
    now rewrite Hrest, skipn_app_exact. }
  read_header Hs Hlen.
  rewrite Htag, Hcount.
  change (Byte.eqb MITCH_MSG_TYPE_ORDER_BOOK MITCH_MSG_TYPE_ORDER_BOOK)
    with true.
  change (negb (Z_of_byte x01 =? 1)) with false. cbv iota.
  rewrite mitch_recv_tcp_ok by exact H32.
  rewrite Hrest, firstn_app_exact by exact Hplen.
  rewrite advance_add. change (8 + 32)%nat with 40%nat. fold s2.
  replace (write_bytes (write_bytes m buffer hdr) (buffer + 8) prefix)
    with m2 by (unfold m2; now rewrite write_bytes_app, Hlen).
  cbv beta iota. rewrite Z.eqb_refl. cbn [negb].
  rewrite ntohs_load.
  replace (load m2 (buffer + 8 + 24) 2) with (firstn 2 (skipn 24 prefix)).
  2:{ unfold m2. replace (buffer + 8 + 24)%nat with (buffer + 32)%nat by lia.
      rewrite load_write_bytes_part by (rewrite length_app; lia).
      change 32%nat with (24 + 8)%nat. rewrite <- skipn_skipn.
      now rewrite skipn_app_exact. }
  fold (wire_num_ticks prefix). fold num_ticks.
  destruct (size_order_book_body num_ticks Hnt) as (E4 & E32 & E40).
  rewrite E40, E4.
  replace (buffer + 8 + 32)%nat with (buffer + 40)%nat by lia.
  unfold u16 in Hnt.
  rewrite int_wrap_small by lia.
  reflexivity.
Qed.

(** The fixed-size path once the header has arrived. *)
Lemma mitch_recv_message_fixed (s : socket) (m : mem) (buffer : nat)
    (buffer_size : Z) (hdr rest : list byte) :
  deliverable s = hdr ++ rest ->
  length hdr = 8%nat ->
  nth 0 hdr x00 <> MITCH_MSG_TYPE_ORDER_BOOK ->
  let count := Z_of_byte (nth 7 hdr x00) in
  let s1 := advance s 8 in
  let m1 := write_bytes m buffer hdr in
  mitch_recv_message s m buffer buffer_size
  = if 8 + 32 * count >? buffer_size then (-2, s1, m1)
    else if 32 * count >? 0 then
      let '(r, s2, m2) :=
        mitch_recv_tcp s1 m1 (buffer + 8) (Z.to_nat (32 * count)) in
      if negb (r =? 0) then (-1, s2, m2)
      else (8 + 32 * count, s2, m2)
    else (8 + 32 * count, s1, m1).
Proof.
  intros Hs Hlen Htag count s1 m1.
  read_header Hs Hlen.
  assert (Hb : Byte.eqb (nth 0 hdr x00) MITCH_MSG_TYPE_ORDER_BOOK = false).
  { destruct (Byte.eqb _ _) eqn:E; [|reflexivity].
    apply Byte.byte_dec_bl in E. contradiction. }
  rewrite Hb. fold count s1 m1.
  destruct (size_fixed_body (nth 7 hdr x00)) as [E0 E8]. fold count in E0, E8.
  rewrite E8, E0.
  pose proof (Z_of_byte_range (nth 7 hdr x00)) as R. fold count in R.
  rewrite int_wrap_small by lia.
  reflexivity.
Qed.

(** On the order-book path, once the prefix has arrived it is in the
    buffer at offsets 8 to 39 on return, whatever [buffer_size] is; below
    40 the return value is -2. *)
Lemma order_book_prefix_stored (s : socket) (m : mem)
    (buffer : nat) (buffer_size : Z) (hdr prefix rest : list byte) :
  deliverable s = hdr ++ prefix ++ rest ->
  length hdr = 8%nat ->
  length prefix = 32%nat ->
  nth 0 hdr x00 = MITCH_MSG_TYPE_ORDER_BOOK ->
  nth 7 hdr x00 = x01 ->
  let '(ret, s', m') := mitch_recv_message s m buffer buffer_size in
  load m' (buffer + 8) 32 = prefix /\
  (buffer_size < 40 ->
   ret = -2 /\ s' = advance s 40 /\
   m' = write_bytes m buffer (hdr ++ prefix)).
Proof.
  intros Hs Hlen Hplen Htag Hcount.
  destruct (mitch_recv_message_order_book s m buffer buffer_size hdr prefix
              rest Hs Hlen Hplen Htag Hcount) as (Hnt & _ & E).
  rewrite E. clear E. unfold u16 in Hnt.
  set (num_ticks := wire_num_ticks prefix) in *.
  set (m2 := write_bytes m buffer (hdr ++ prefix)).
  assert (Hm2 : load m2 (buffer + 8) 32 = prefix).
  { unfold m2. rewrite load_write_bytes_part by (rewrite length_app; lia).
    rewrite skipn_app_exact by exact Hlen.
    rewrite <- Hplen. apply firstn_all. }
  destruct (8 + 32 + 4 * num_ticks >? buffer_size) eqn:Hcmp.
  - split; [exact Hm2|]. intros _. repeat split.
  - assert (Hfit : 8 + 32 + 4 * num_ticks <= buffer_size).
    { rewrite Z.gtb_ltb in Hcmp. apply Z.ltb_ge in Hcmp. exact Hcmp. }
    destruct (4 * num_ticks >? 0).
    + pose proof (mitch_recv_tcp_outside (advance s 40) m2 (buffer + 40)
                    (Z.to_nat (4 * num_ticks))) as Hout.
      destruct (mitch_recv_tcp (advance s 40) m2 (buffer + 40)
                  (Z.to_nat (4 * num_ticks))) as [[r s3] m3].
      cbn [snd] in Hout.
      assert (Hm3 : load m3 (buffer + 8) 32 = prefix).
      { rewrite <- Hm2. apply load_ext. intros q Hq. apply Hout. lia. }
      destruct (negb (r =? 0)); (split; [exact Hm3 | intros; lia]).
    + split; [exact Hm2 | intros; lia].
Qed.

(** On the order-book path, a stream that fails or closes inside the
    prefix gives -1: the size check is not reached. *)
Lemma order_book_prefix_missing (s : socket) (m : mem)
    (buffer : nat) (buffer_size : Z) (hdr rest : list byte) :
  deliverable s = hdr ++ rest ->
  length hdr = 8%nat ->
  nth 0 hdr x00 = MITCH_MSG_TYPE_ORDER_BOOK ->
  nth 7 hdr x00 = x01 ->
  (length rest < 32)%nat ->
  fst (fst (mitch_recv_message s m buffer buffer_size)) = -1.
Proof.
  intros Hs Hlen Htag Hcount Hshort.
  pose proof (mitch_recv_message_header s m buffer buffer_size hdr rest
                Hs Hlen) as (_ & Hrest & _).
  read_header Hs Hlen.
  rewrite Htag, Hcount.
  change (Byte.eqb MITCH_MSG_TYPE_ORDER_BOOK MITCH_MSG_TYPE_ORDER_BOOK)
    with true.
  change (negb (Z_of_byte x01 =? 1)) with false. cbv iota.
  pose proof (mitch_recv_tcp_fail (advance s 8) (write_bytes m buffer hdr)
                (buffer + 8) 32) as Hfail.
  rewrite Hrest in Hfail. specialize (Hfail Hshort).
  destruct (mitch_recv_tcp (advance s 8) (write_bytes m buffer hdr)
              (buffer + 8) 32) as [[r s2] m2].
  cbn [fst] in Hfail. subst r. reflexivity.
Qed.

(** C9.  Take any call whose stream delivers a header with tag 'q' and
    count 1.  If the stream fails or closes inside the 32-byte prefix the
    result is -1.  Otherwise the prefix is in the buffer at offsets 8 to
    39 when the function returns, whatever [buffer_size] is: its bytes are
    stored before [buffer_size] is looked at.  So with [buffer_size < 40]
    the function returns -2 only after these 32 bytes have been taken off
    the stream and stored from offset 8 on. *)
Theorem order_book_prefix_stored_before_check (s : socket) (m : mem)
    (buffer : nat) (buffer_size : Z) (hdr rest : list byte) :
  deliverable s = hdr ++ rest ->
  length hdr = 8%nat ->
  nth 0 hdr x00 = MITCH_MSG_TYPE_ORDER_BOOK ->
  nth 7 hdr x00 = x01 ->
  let '(ret, s', m') := mitch_recv_message s m buffer buffer_size in
  ((length rest < 32)%nat -> ret = -1) /\
  ((32 <= length rest)%nat ->
   load m' (buffer + 8) 32 = firstn 32 rest /\
   (buffer_size < 40 ->
    ret = -2 /\ s' = advance s 40 /\
    m' = write_bytes m buffer (hdr ++ firstn 32 rest))).
Proof.
  intros Hs Hlen Htag Hcount.
  pose proof (order_book_prefix_missing s m buffer buffer_size hdr rest
                Hs Hlen Htag Hcount) as Hmissing.
  pose proof (order_book_prefix_stored s m buffer buffer_size hdr
                (firstn 32 rest) (skipn 32 rest)) as Hstored.
  rewrite firstn_skipn in Hstored.
  destruct (mitch_recv_message s m buffer buffer_size) as [[ret s'] m'].
  split; [exact Hmissing|].
  intros Hlong. apply Hstored; try assumption.
  rewrite length_firstn. lia.
Qed.

(** C2.  For every [num_ticks] from 0 to 65535 the lengths are computed
    without wrap-around: [32 + 4 * num_ticks] both in the [size_t]
    arithmetic of [mitch_recv_message] and in the [int] arithmetic of
    [pack_order_book_body], and [8 + 32 + 4 * num_ticks] for the
    comparison with [buffer_size].  So [pack_order_book_body] returns
    [32 + 4 * num_ticks], and the reader, once header and prefix are in,
    returns -2 exactly when [buffer_size] is below
    [8 + 32 + 4 * num_ticks] and otherwise, the volumes arriving, returns
    [8 + 32 + 4 * num_ticks].  For 65535 these are 262172 and 262180. *)
Theorem order_book_length_exact (num_ticks : Z) :
  u16 num_ticks ->
  size_add 32 (size_mul num_ticks 4) = 32 + 4 * num_ticks /\
  size_add 8 (size_add 32 (size_mul num_ticks 4)) = 8 + 32 + 4 * num_ticks /\
  int_add 32 (int_mul num_ticks 4) = 32 + 4 * num_ticks /\
  (forall order_book volumes m buffer,
     OrderBook.num_ticks order_book = num_ticks ->
     snd (pack_order_book_body order_book volumes m buffer)
     = 32 + 4 * num_ticks) /\
  (forall s m buffer buffer_size hdr prefix rest,
     deliverable s = hdr ++ prefix ++ rest ->
     length hdr = 8%nat ->
     length prefix = 32%nat ->
     nth 0 hdr x00 = MITCH_MSG_TYPE_ORDER_BOOK ->
     nth 7 hdr x00 = x01 ->
     wire_num_ticks prefix = num_ticks ->
     (buffer_size < 8 + 32 + 4 * num_ticks ->
      fst (fst (mitch_recv_message s m buffer buffer_size)) = -2) /\
     (8 + 32 + 4 * num_ticks <= buffer_size ->
      4 * num_ticks <= Z.of_nat (length rest) ->
      fst (fst (mitch_recv_message s m buffer buffer_size))
      = 8 + 32 + 4 * num_ticks)).
Proof.
  intros Hnt.
  destruct (size_order_book_body num_ticks Hnt) as (_ & E32 & E40).
  pose proof (int_order_book_length num_ticks Hnt) as Eint.
  split; [exact E32|]. split; [exact E40|]. split; [exact Eint|]. split.
  - intros order_book volumes m buffer <-.
    cbv beta zeta delta [pack_order_book_body snd]. exact Eint.
  - intros s m buffer buffer_size hdr prefix rest Hs Hlen Hplen Htag Hcount
      Hwire.
    destruct (mitch_recv_message_order_book s m buffer buffer_size hdr prefix
                rest Hs Hlen Hplen Htag Hcount) as (_ & Hrest & E).
    rewrite E, Hwire. split.
    + intros Hsmall.
      assert (Hcmp : (8 + 32 + 4 * num_ticks >? buffer_size) = true)
        by (apply Z.gtb_lt; lia).
      rewrite Hcmp. reflexivity.
    + intros Hfit Htail.
      assert (Hcmp : (8 + 32 + 4 * num_ticks >? buffer_size) = false)
        by (rewrite Z.gtb_ltb; apply Z.ltb_ge; lia).
      rewrite Hcmp.
      destruct (4 * num_ticks >? 0); [|reflexivity].
      rewrite mitch_recv_tcp_ok by (rewrite Hrest; lia).
      reflexivity.
Qed.

Lemma wire_num_ticks_prefix (body : list byte) :
  wire_num_ticks (firstn 32 body) = wire_num_ticks body.
Proof.
  unfold wire_num_ticks.
  rewrite skipn_firstn_comm, firstn_firstn. reflexivity.
Qed.

(** A complete message that fits the buffer is read whole, however the
    stream cuts it into segments. *)
Lemma mitch_recv_message_complete (s : socket) (m : mem) (buffer : nat)
    (buffer_size : Z) (msg rest : list byte) :
  complete_message msg ->
  deliverable s = msg ++ rest ->
  Z.of_nat (length msg) <= buffer_size ->
  mitch_recv_message s m buffer buffer_size
  = (Z.of_nat (length msg), advance s (length msg), write_bytes m buffer msg).
Proof.
  intros [H8 Hcase] Hs Hfit.
  pose proof (firstn_skipn 8 msg) as Hmsg.
  assert (Hlen : length (firstn 8 msg) = 8%nat)
    by (rewrite length_firstn; lia).
  assert (Htag : nth 0 msg x00 = nth 0 (firstn 8 msg) x00)
    by (rewrite <- Hmsg at 1; rewrite app_nth1 by lia; reflexivity).
  assert (Hcnt : nth 7 msg x00 = nth 7 (firstn 8 msg) x00)
    by (rewrite <- Hmsg at 1; rewrite app_nth1 by lia; reflexivity).
  rewrite Htag, Hcnt in Hcase. clear Htag Hcnt H8.
  revert Hmsg Hlen Hcase.
  generalize (firstn 8 msg) as hdr, (skipn 8 msg) as body.
  intros hdr body <- Hlen Hcase.
  rewrite length_app, Hlen in *.
  destruct (Byte.eqb (nth 0 hdr x00) MITCH_MSG_TYPE_ORDER_BOOK) eqn:Eq.
  - (* order book: header, prefix, volumes *)
    apply Byte.byte_dec_bl in Eq. destruct Hcase as [Hcount Htotal].
    pose proof (be_value_range (firstn 2 (skipn 24 body))) as Hr.
    fold (wire_num_ticks body) in Hr.
    rewrite <- (wire_num_ticks_prefix body) in *.
    pose proof (firstn_skipn 32 body) as Hb.
    assert (Hplen : length (firstn 32 body) = 32%nat)
      by (rewrite length_firstn; lia).
    revert Hb Hplen Hr Htotal.
    generalize (firstn 32 body) as prefix, (skipn 32 body) as tail.
    intros prefix tail <- Hplen _ Htotal.
    rewrite length_app, Hplen in *.
    rewrite <- !app_assoc in Hs.
    destruct (mitch_recv_message_order_book s m buffer buffer_size hdr prefix
                (tail ++ rest) Hs Hlen Hplen Eq Hcount) as (_ & Hrest & E).
    rewrite E. clear E.
    assert (Htail : Z.of_nat (length tail) = 4 * wire_num_ticks prefix)
      by lia.
    rewrite <- Htail in *.
    assert (Hcmp : (8 + 32 + Z.of_nat (length tail) >? buffer_size) = false)
      by (rewrite Z.gtb_ltb; apply Z.ltb_ge; lia).
    rewrite Hcmp.
    destruct (Z.of_nat (length tail) >? 0) eqn:Epos.
    + rewrite mitch_recv_tcp_ok by (rewrite Hrest, length_app; lia).
      rewrite Hrest, Nat2Z.id, firstn_app_exact by reflexivity.
      rewrite advance_add. cbn [negb Z.eqb].
      rewrite (app_assoc hdr prefix tail), (write_bytes_app (hdr ++ prefix)).
      rewrite length_app, Hlen, Hplen.
      f_equal. f_equal. lia.
    + assert (Hz : length tail = 0%nat).
      { rewrite Z.gtb_ltb in Epos. apply Z.ltb_ge in Epos. lia. }
      apply length_zero_iff_nil in Hz. subst tail.
      rewrite !app_nil_r. reflexivity.
  - (* fixed-size bodies *)
    assert (Hne : nth 0 hdr x00 <> MITCH_MSG_TYPE_ORDER_BOOK).
    { intros E. apply Byte.byte_dec_lb in E. congruence. }
    rewrite <- app_assoc in Hs.
    rewrite (mitch_recv_message_fixed s m buffer buffer_size hdr
               (body ++ rest) Hs Hlen Hne).
    pose proof (mitch_recv_message_header s m buffer buffer_size hdr
                  (body ++ rest) Hs Hlen) as (_ & Hrest & _).
    assert (Hbl : Z.of_nat (length body) = 32 * Z_of_byte (nth 7 hdr x00))
      by lia.
    rewrite <- Hbl.
    assert (Hcmp : (8 + Z.of_nat (length body) >? buffer_size) = false)
      by (rewrite Z.gtb_ltb; apply Z.ltb_ge; lia).
    rewrite Hcmp.
    destruct (Z.of_nat (length body) >? 0) eqn:Epos.
    + rewrite mitch_recv_tcp_ok by (rewrite Hrest, length_app; lia).
      rewrite Hrest, Nat2Z.id, firstn_app_exact by reflexivity.
      rewrite advance_add. cbn [negb Z.eqb].
      rewrite write_bytes_app, Hlen.
      f_equal. f_equal. lia.
    + assert (Hz : length body = 0%nat).
      { rewrite Z.gtb_ltb in Epos. apply Z.ltb_ge in Epos. lia. }
      apply length_zero_iff_nil in Hz. subst body.
      rewrite !app_nil_r. reflexivity.
Qed.

(** C7.  Whatever the sizes of the partial reads in which the stream
    hands over a complete message, [mitch_recv_message], given a buffer
    that holds it, returns the message's length [8 + body_len] with
    exactly the message's bytes in the buffer, in wire order, and exactly
    these bytes gone from the stream.  And [mitch_recv_tcp] returns 0
    having taken exactly [length] bytes when the stream delivers that
    many, and -1 when the stream fails or closes before. *)
Theorem message_assembled_from_partial_reads :
  (forall s m buffer buffer_size msg rest,
     complete_message msg ->
     deliverable s = msg ++ rest ->
     Z.of_nat (length msg) <= buffer_size ->
     let '(ret, s', m') := mitch_recv_message s m buffer buffer_size in
     ret = Z.of_nat (length msg) /\
     load m' buffer (length msg) = msg /\
     s' = advance s (length msg) /\ deliverable s' = rest) /\
  (forall sizes msg, deliverable (split_stream sizes msg) = msg) /\
  (forall s m buffer length,
     ((length <= List.length (deliverable s))%nat ->
      mitch_recv_tcp s m buffer length
      = (0, advance s length,
         write_bytes m buffer (firstn length (deliverable s))) /\
      deliverable (advance s length) = skipn length (deliverable s)) /\
     ((List.length (deliverable s) < length)%nat ->
      fst (fst (mitch_recv_tcp s m buffer length)) = -1)).
Proof.
  split; [|split].
  - intros s m buffer buffer_size msg rest Hmsg Hs Hfit.
    rewrite (mitch_recv_message_complete s m buffer buffer_size msg rest)
      by assumption.
    repeat split.
    + now apply load_write_bytes_same.
    + rewrite deliverable_advance by (rewrite Hs, length_app; lia).
      now rewrite Hs, skipn_app_exact.
  - apply deliverable_split_stream.
  - intros s m buffer length. split.
    + intros H. split.
      * now apply mitch_recv_tcp_ok.
      * now apply deliverable_advance.
    + apply mitch_recv_tcp_fail.
Qed.

End Reader.

(* ================================================================== *)
(** * The claims at concrete inputs *)

Ltac in_range := unfold u16, u32, u64; cbn; lia.

(** The ticker id 0x00006F001CD00000 of [example_usage] on the wire. *)
Example example_trade_ticker_id_bytes :
  load (fst (pack_trade_body (P := lp64_le) example_trade zero_mem 0)) 0 8
  = [x00; x00; x6f; x00; x1c; xd0; x00; x00] /\
  load (fst (pack_trade_body (P := ilp32_be) example_trade zero_mem 0)) 0 8
  = [x00; x00; x6f; x00; x1c; xd0; x00; x00].
Proof. split; rewrite pack_trade_body_ticker_id; reflexivity. Qed.

Lemma fixed_bodies_round_trip_witness :
  Trade_valid nan_trade /\ Order_valid padded_order /\
  Tick_valid example_tick /\
  (let '(trade', n) :=
     unpack_trade_body (P := lp64_le)
       (fst (pack_trade_body (P := lp64_le) nan_trade zero_mem 3)) 3 in
   Trade.ticker_id trade' = Trade.ticker_id nan_trade /\
   Trade.price trade' = Trade.price nan_trade /\
   Trade.quantity trade' = Trade.quantity nan_trade /\
   Trade.trade_id trade' = Trade.trade_id nan_trade /\
   Trade.side trade' = Trade.side nan_trade /\
   n = 32 /\ snd (pack_trade_body (P := lp64_le) nan_trade zero_mem 3) = 32) /\
  (unpack_order_body (P := lp64_le)
     (fst (pack_order_body (P := lp64_le) padded_order zero_mem 3)) 3
   = (padded_order, 32) /\
   snd (pack_order_body (P := lp64_le) padded_order zero_mem 3) = 32) /\
  (unpack_ticker_body (P := lp64_le)
     (fst (pack_ticker_body (P := lp64_le) example_tick zero_mem 3)) 3
   = (example_tick, 32) /\
   snd (pack_ticker_body (P := lp64_le) example_tick zero_mem 3) = 32).
Proof.
  assert (Ht : Trade_valid nan_trade) by (repeat split; in_range).
  assert (Ho : Order_valid padded_order)
    by (repeat split; try reflexivity; in_range).
  assert (Hk : Tick_valid example_tick) by (repeat split; in_range).
  split; [exact Ht|]. split; [exact Ho|]. split; [exact Hk|].
  exact (fixed_bodies_round_trip (P := lp64_le) nan_trade padded_order
           example_tick zero_mem 3 Ht Ho Hk).
Defined.

Lemma order_book_body_round_trip_witness :
  OrderBook_valid example_book /\
  Forall u32 [100; 200] /\
  Z.of_nat (length [100; 200]) = OrderBook.num_ticks example_book /\
  (let '(m', packed) :=
     pack_order_book_body (P := ilp32_be) example_book [100; 200]
       zero_mem 8 in
   let '(order_book', volumes', unpacked) :=
     unpack_order_book_body (P := ilp32_be) m' 8 in
   OrderBook.ticker_id order_book' = OrderBook.ticker_id example_book /\
   OrderBook.first_tick order_book' = OrderBook.first_tick example_book /\
   OrderBook.tick_size order_book' = OrderBook.tick_size example_book /\
   OrderBook.num_ticks order_book' = OrderBook.num_ticks example_book /\
   OrderBook.side order_book' = OrderBook.side example_book /\
   volumes' = [100; 200] /\
   packed = 32 + 4 * OrderBook.num_ticks example_book /\
   unpacked = 32 + 4 * OrderBook.num_ticks example_book).
Proof.
  assert (Hb : OrderBook_valid example_book) by (repeat split; in_range).
  assert (Hv : Forall u32 [100; 200]) by (repeat constructor; in_range).
  assert (Hl : Z.of_nat (length [100; 200])
               = OrderBook.num_ticks example_book) by reflexivity.
  split; [exact Hb|]. split; [exact Hv|]. split; [exact Hl|].
  exact (order_book_body_round_trip (P := ilp32_be) example_book [100; 200]
           zero_mem 8 Hb Hv Hl).
Defined.

(** C1, the claim as stated, fails.  The input is a 32-byte prefix that
    announces one volume entry, so 36 bytes are required and 32 are
    supplied.  The function reports no error: it returns 36 and one
    volume.  That volume is read from the four bytes after the input: two
    memories that hold the same 32 input bytes and differ after them give
    different volumes. *)
Lemma unpack_order_book_body_short_input :
  let m1 := write_bytes zero_mem 0 (short_book_input ++ [x00; x00; x00; x01]) in
  let m2 := write_bytes zero_mem 0 (short_book_input ++ [x00; x00; x00; x02]) in
  length short_book_input = 32%nat /\
  wire_num_ticks short_book_input = 1 /\
  Z.of_nat (length short_book_input)
  < 32 + 4 * wire_num_ticks short_book_input /\
  load m1 0 32 = short_book_input /\
  load m2 0 32 = short_book_input /\
  OrderBook.num_ticks (fst (fst (unpack_order_book_body (P := lp64_le) m1 0)))
  = 1 /\
  snd (unpack_order_book_body (P := lp64_le) m1 0) = 36 /\
  snd (fst (unpack_order_book_body (P := lp64_le) m1 0)) = [1] /\
  snd (fst (unpack_order_book_body (P := lp64_le) m2 0)) = [2].
Proof. vm_compute. repeat split. Qed.

Lemma unpack_order_book_body_unchecked_witness :
  let m := write_bytes zero_mem 0 (short_book_input ++ [x00; x00; x00; x01]) in
  let m' := store m 36 xff in
  let m'' := store m 35 xff in
  let num_ticks := be_value (load m (0 + 24) 2) in
  (forall q, (0 <= q < 0 + (32 + 4 * Z.to_nat num_ticks))%nat -> m' q = m q) /\
  unpack_order_book_body (P := lp64_le) m' 0
  = unpack_order_book_body (P := lp64_le) m 0 /\
  m'' 35%nat <> m 35%nat /\
  unpack_order_book_body (P := lp64_le) m'' 0
  <> unpack_order_book_body (P := lp64_le) m 0 /\
  (let '(order_book, volumes, ret) :=
     unpack_order_book_body (P := lp64_le) m 0 in
   OrderBook.num_ticks order_book = num_ticks /\
   0 <= num_ticks <= 65535 /\
   ret = 32 + 4 * num_ticks /\
   Z.of_nat (length volumes) = num_ticks /\
   ((forall q, (0 <= q < 0 + (32 + 4 * Z.to_nat num_ticks))%nat ->
               m' q = m q)
    <-> unpack_order_book_body (P := lp64_le) m' 0
        = unpack_order_book_body (P := lp64_le) m 0)).
Proof.
  intros m m' m'' num_ticks.
  assert (H : forall q,
             (0 <= q < 0 + (32 + 4 * Z.to_nat num_ticks))%nat -> m' q = m q).
  { intros q Hq. unfold m'. apply store_other.
    change (Z.to_nat num_ticks) with 1%nat in Hq. lia. }
  assert (Hne : m'' 35%nat <> m 35%nat) by discriminate.
  pose proof (unpack_order_book_body_unchecked (P := lp64_le) m m' 0) as T.
  pose proof (unpack_order_book_body_unchecked (P := lp64_le) m m'' 0) as T'.
  cbv zeta in T, T'. fold num_ticks in T, T'.
  split; [exact H|].
  destruct (unpack_order_book_body (P := lp64_le) m 0)
    as [[order_book volumes] ret].
  split; [exact (proj1 (proj2 (proj2 (proj2 (proj2 T)))) H)|].
  split; [exact Hne|].
  split; [|exact T].
  intros E.
  apply Hne, (proj2 (proj2 (proj2 (proj2 (proj2 T')))) E).
  change (Z.to_nat num_ticks) with 1%nat. lia.
Defined.

Lemma order_book_count_rejected_witness :
  let hdr := [x71; x00; x00; x00; x00; x00; x2a; x02] in
  let s := split_stream [5%nat] (hdr ++ book_prefix) in
  deliverable s = hdr ++ book_prefix /\
  length hdr = 8%nat /\
  nth 0 hdr x00 = MITCH_MSG_TYPE_ORDER_BOOK /\
  nth 7 hdr x00 <> x01 /\
  mitch_recv_message (P := lp64_le) s zero_mem 0 4096
  = (-3, advance s 8, write_bytes zero_mem 0 hdr) /\
  deliverable (advance s 8) = book_prefix.
Proof.
  intros hdr s.
  assert (Hs : deliverable s = hdr ++ book_prefix) by reflexivity.
  assert (Hlen : length hdr = 8%nat) by reflexivity.
  assert (Htag : nth 0 hdr x00 = MITCH_MSG_TYPE_ORDER_BOOK) by reflexivity.
  assert (Hcount : nth 7 hdr x00 <> x01) by discriminate.
  split; [exact Hs|]. split; [exact Hlen|]. split; [exact Htag|].
  split; [exact Hcount|].
  exact (order_book_count_rejected (P := lp64_le) s zero_mem 0 4096 hdr
           book_prefix Hs Hlen Htag Hcount).
Defined.

Lemma order_book_length_exact_witness :
  let rest := repeat x2a (Z.to_nat 262140) in
  let s :=
    split_stream [3; 100; 1000]%nat (book_header ++ full_book_prefix ++ rest)
  in
  u16 65535 /\
  deliverable s = book_header ++ full_book_prefix ++ rest /\
  wire_num_ticks full_book_prefix = 65535 /\
  size_add (P := ilp32_be) 32 (size_mul (P := ilp32_be) 65535 4) = 262172 /\
  size_add (P := ilp32_be) 8
    (size_add (P := ilp32_be) 32 (size_mul (P := ilp32_be) 65535 4))
  = 262180 /\
  int_add 32 (int_mul 65535 4) = 262172 /\
  snd (pack_order_book_body (P := ilp32_be)
         (OrderBook.mk 1 2 3 65535 x00 []) [] zero_mem 0) = 262172 /\
  fst (fst (mitch_recv_message (P := ilp32_be) s zero_mem 0 262179)) = -2 /\
  fst (fst (mitch_recv_message (P := ilp32_be) s zero_mem 0 262180)) = 262180.
Proof.
  intros rest s.
  assert (H : u16 65535) by in_range.
  assert (Hs : deliverable s = book_header ++ full_book_prefix ++ rest)
    by apply deliverable_split_stream.
  assert (Hw : wire_num_ticks full_book_prefix = 65535) by reflexivity.
  destruct (order_book_length_exact (P := ilp32_be) 65535 H)
    as (E32 & E40 & Eint & Epack & Erecv).
  split; [exact H|]. split; [exact Hs|]. split; [exact Hw|].
  split; [exact E32|]. split; [exact E40|]. split; [exact Eint|].
  split; [exact (Epack (OrderBook.mk 1 2 3 65535 x00 []) [] zero_mem 0%nat
                   eq_refl)|].
  assert (Hrest : 4 * 65535 <= Z.of_nat (length rest))
    by (unfold rest; rewrite repeat_length; lia).
  split.
  - exact (proj1 (Erecv s zero_mem 0%nat 262179 book_header full_book_prefix
                    rest Hs eq_refl eq_refl eq_refl eq_refl Hw)
             ltac:(lia)).
  - exact (proj2 (Erecv s zero_mem 0%nat 262180 book_header full_book_prefix
                    rest Hs eq_refl eq_refl eq_refl eq_refl Hw)
             ltac:(lia) Hrest).
Defined.

Lemma fixed_message_buffer_too_small_witness :
  let s := split_stream [3; 10]%nat example_message in
  let body := skipn 8 example_message in
  deliverable s = example_header ++ body /\
  length example_header = 8%nat /\
  nth 0 example_header x00 <> MITCH_MSG_TYPE_ORDER_BOOK /\
  39 < 8 + 32 * Z_of_byte (nth 7 example_header x00) /\
  (let '(ret, s', m') :=
     mitch_recv_message (P := lp64_le) s zero_mem 0 39 in
   ret = -2 /\
   s' = advance s 8 /\ deliverable s' = body /\
   load m' 0 8 = example_header /\
   forall q, (q < 0 \/ 0 + 8 <= q)%nat -> m' q = zero_mem q).
Proof.
  intros s body.
  assert (Hs : deliverable s = example_header ++ body) by reflexivity.
  assert (Hlen : length example_header = 8%nat) by reflexivity.
  assert (Htag : nth 0 example_header x00 <> MITCH_MSG_TYPE_ORDER_BOOK)
    by discriminate.
  assert (Hsize : 39 < 8 + 32 * Z_of_byte (nth 7 example_header x00))
    by (cbn; lia).
  split; [exact Hs|]. split; [exact Hlen|]. split; [exact Htag|].
  split; [exact Hsize|].
  exact (fixed_message_buffer_too_small (P := lp64_le) s zero_mem 0 39
           example_header body Hs Hlen Htag Hsize).
Defined.

Lemma zero_count_accepted_witness :
  let hdr := [x74; x00; x00; x00; x00; x00; x2a; x00] in
  let s := split_stream [2; 2; 2]%nat (hdr ++ example_message) in
  deliverable s = hdr ++ example_message /\
  length hdr = 8%nat /\
  nth 0 hdr x00 <> MITCH_MSG_TYPE_ORDER_BOOK /\
  nth 7 hdr x00 = x00 /\
  8 <= 8 /\
  (let '(ret, s', m') := mitch_recv_message (P := lp64_le) s zero_mem 0 8 in
   ret = 8 /\
   s' = advance s 8 /\ deliverable s' = example_message /\
   load m' 0 8 = hdr /\
   forall q, (q < 0 \/ 0 + 8 <= q)%nat -> m' q = zero_mem q).
Proof.
  intros hdr s.
  assert (Hs : deliverable s = hdr ++ example_message) by reflexivity.
  assert (Hlen : length hdr = 8%nat) by reflexivity.
  assert (Htag : nth 0 hdr x00 <> MITCH_MSG_TYPE_ORDER_BOOK) by discriminate.
  assert (Hcount : nth 7 hdr x00 = x00) by reflexivity.
  assert (Hsize : 8 <= 8) by lia.
  split; [exact Hs|]. split; [exact Hlen|]. split; [exact Htag|].
  split; [exact Hcount|]. split; [exact Hsize|].
  exact (zero_count_accepted (P := lp64_le) s zero_mem 0 8 hdr
           example_message Hs Hlen Htag Hcount Hsize).
Defined.

Lemma order_book_prefix_stored_before_check_witness :
  let rest := book_prefix ++ book_volumes in
  let s := split_stream [1; 20]%nat (book_header ++ rest) in
  deliverable s = book_header ++ rest /\
  length book_header = 8%nat /\
  nth 0 book_header x00 = MITCH_MSG_TYPE_ORDER_BOOK /\
  nth 7 book_header x00 = x01 /\
  (let '(ret, s', m') := mitch_recv_message (P := lp64_le) s zero_mem 0 8 in
   ((length rest < 32)%nat -> ret = -1) /\
   ((32 <= length rest)%nat ->
    load m' (0 + 8) 32 = firstn 32 rest /\
    (8 < 40 ->
     ret = -2 /\ s' = advance s 40 /\
     m' = write_bytes zero_mem 0 (book_header ++ firstn 32 rest)))).
Proof.
  intros rest s.
  assert (Hs : deliverable s = book_header ++ rest) by reflexivity.
  assert (Hlen : length book_header = 8%nat) by reflexivity.
  assert (Htag : nth 0 book_header x00 = MITCH_MSG_TYPE_ORDER_BOOK)
    by reflexivity.
  assert (Hcount : nth 7 book_header x00 = x01) by reflexivity.
  split; [exact Hs|]. split; [exact Hlen|].
  split; [exact Htag|]. split; [exact Hcount|].
  exact (order_book_prefix_stored_before_check (P := lp64_le) s zero_mem 0 8
           book_header rest Hs Hlen Htag Hcount).
Defined.

Lemma message_assembled_from_partial_reads_witness :
  let s := split_stream [3; 10; 27]%nat example_message in
  complete_message example_message /\
  deliverable s = example_message ++ [] /\
  Z.of_nat (length example_message) <= 40 /\
  (let '(ret, s', m') := mitch_recv_message (P := lp64_le) s zero_mem 0 40 in
   ret = Z.of_nat (length example_message) /\
   load m' 0 (length example_message) = example_message /\
   s' = advance s (length example_message) /\ deliverable s' = []).
Proof.
  intros s.
  assert (Hmsg : complete_message example_message)
    by (split; [cbn; lia | reflexivity]).
  assert (Hs : deliverable s = example_message ++ []) by reflexivity.
  assert (Hfit : Z.of_nat (length example_message) <= 40) by (cbn; lia).
  split; [exact Hmsg|]. split; [exact Hs|]. split; [exact Hfit|].
  exact (proj1 (message_assembled_from_partial_reads (P := lp64_le))
           s zero_mem 0%nat 40 example_message [] Hmsg Hs Hfit).
Defined.

(* ================================================================== *)
(** * Further properties of the codec *)

(** ** Wire images of the packing functions *)

Lemma be_bytes_be_value (l : list byte) : be_bytes (length l) (be_value l) = l.
Proof.
  unfold be_bytes, be_value.
  rewrite <- (length_rev l), le_bytes_le_value. apply rev_involutive.
Qed.

Lemma load_app (m : mem) (s a b : nat) :
  load m s (a + b) = load m s a ++ load m (s + a) b.
Proof. unfold load. now rewrite seq_app, map_app. Qed.

(** A part of a block of memory, read from the block's bytes. *)
Lemma load_sub (m : mem) (s k n N : nat) :
  (k + n <= N)%nat ->
  load m (s + k) n = firstn n (skipn k (load m s N)).
Proof.
  intros H. replace N with (k + (n + (N - k - n)))%nat by lia.
  rewrite load_app, skipn_app_exact by apply load_length.
  rewrite load_app, firstn_app_exact by apply load_length.
  reflexivity.
Qed.

Lemma load_byte (m : mem) (s k N : nat) :
  (k < N)%nat -> m (s + k)%nat = nth k (load m s N) x00.
Proof.
  intros H. unfold load.
  rewrite (nth_indep _ x00 (m 0%nat)) by now rewrite length_map, length_seq.
  now rewrite map_nth, seq_nth.
Qed.

Lemma store_as_write (m : mem) (p : nat) (b : byte) :
  store m p b = write_bytes m p [b].
Proof. reflexivity. Qed.

Ltac image_form :=
  rewrite ?store_as_write;
  repeat (rewrite write_bytes_app;
          rewrite ?be_bytes_length, ?repeat_length, ?length_firstn).

Section WireImages.

Context {P : Platform}.

Lemma pack_header_image (header : MitchHeader.t) (m : mem) (buffer : nat) :
  (6 <= length (MitchHeader.timestamp header))%nat ->
  pack_header header m buffer = (write_bytes m buffer (header_wire header), 8).
Proof.
  intros H. cbv beta zeta delta [pack_header header_wire].
  unfold memcpy. image_form. rewrite Nat.min_l by exact H.
  cbn [length]. rewrite Nat.add_0_r.
  replace (buffer + 1 + 6)%nat with (buffer + 7)%nat by lia.
  reflexivity.
Qed.

Lemma pack_trade_body_image (trade : Trade.t) (m : mem) (buffer : nat) :
  pack_trade_body trade m buffer = (write_bytes m buffer (trade_wire trade), 32).
Proof.
  cbv beta zeta delta [pack_trade_body trade_wire].
  wire_form. image_form. reflexivity.
Qed.

Lemma pack_order_body_image (order : Order.t) (m : mem) (buffer : nat) :
  (6 <= length (Order.expiry order))%nat ->
  pack_order_body order m buffer = (write_bytes m buffer (order_wire order), 32).
Proof.
  intros H. cbv beta zeta delta [pack_order_body order_wire].
  wire_form. image_form. rewrite Nat.min_l by exact H. reflexivity.
Qed.

Lemma pack_ticker_body_image (ticker : Tick.t) (m : mem) (buffer : nat) :
  pack_ticker_body ticker m buffer
  = (write_bytes m buffer (ticker_wire ticker), 32).
Proof.
  cbv beta zeta delta [pack_ticker_body ticker_wire].
  wire_form. image_form. reflexivity.
Qed.

Lemma volumes_wire_length (todo i : nat) (volumes : list Z) :
  length (volumes_wire todo i volumes) = (4 * todo)%nat.
Proof.
  unfold volumes_wire. revert i.
  induction todo as [|todo IH]; intros i; [reflexivity|].
  cbn [seq flat_map]. rewrite length_app, be_bytes_length, IH. lia.
Qed.

Lemma pack_volumes_image (todo i : nat) (volumes : list Z) (m : mem)
    (ptr : nat) :
  pack_volumes todo i volumes m ptr
  = write_bytes m ptr (volumes_wire todo i volumes).
Proof.
  unfold volumes_wire. revert i m ptr.
  induction todo as [|todo IH]; intros i m ptr; [reflexivity|].
  cbn [pack_volumes seq flat_map]. cbv zeta.
  rewrite memcpy_htonl, IH, write_bytes_app, be_bytes_length.
  reflexivity.
Qed.

Lemma pack_order_book_body_image (order_book : OrderBook.t)
    (volumes : list Z) (m : mem) (buffer : nat) :
  fst (pack_order_book_body order_book volumes m buffer)
  = write_bytes m buffer (order_book_wire order_book volumes).
Proof.
  cbv beta zeta delta [pack_order_book_body order_book_wire fst].
  wire_form. rewrite pack_volumes_image. image_form. reflexivity.
Qed.

Lemma order_book_wire_length (order_book : OrderBook.t) (volumes : list Z) :
  length (order_book_wire order_book volumes)
  = (32 + 4 * Z.to_nat (OrderBook.num_ticks order_book))%nat.
Proof.
  unfold order_book_wire.
  rewrite !length_app, !be_bytes_length, repeat_length, volumes_wire_length.
  cbn [length]. lia.
Qed.

End WireImages.

Ltac wire_form_at P :=
  repeat first
    [ rewrite (@memcpy_htobe64 P) | rewrite (@write_double_be_wire P)
    | rewrite (@memcpy_htonl P) | rewrite (@memcpy_htons P)
    | rewrite (@be64toh_load P) | rewrite (@read_double_be_wire P)
    | rewrite (@ntohl_load P) | rewrite (@ntohs_load P) ].

Lemma unpack_volumes_wire (P : Platform) (todo : nat) (m : mem) (ptr : nat) :
  unpack_volumes (P := P) todo m ptr
  = map (fun j => be_value (load m (ptr + 4 * j) 4)) (seq 0 todo).
Proof.
  revert ptr. induction todo as [|todo IH]; intros ptr; [reflexivity|].
  cbn [unpack_volumes]. cbv zeta. rewrite ntohl_load, IH.
  cbn [seq map]. rewrite Nat.mul_0_r, Nat.add_0_r. f_equal.
  rewrite <- seq_shift, map_map. apply map_ext. intros j.
  do 2 f_equal. lia.
Qed.

Lemma volumes_wire_firstn (todo : nat) (volumes : list Z) :
  (todo <= length volumes)%nat ->
  volumes_wire todo 0 volumes = flat_map (be_bytes 4) (firstn todo volumes).
Proof.
  unfold volumes_wire. intros H.
  assert (G : forall i, (i + todo <= length volumes)%nat ->
            flat_map (fun j => be_bytes 4 (nth j volumes 0)) (seq i todo)
            = flat_map (be_bytes 4) (firstn todo (skipn i volumes))).
  { clear H. induction todo as [|todo IH]; intros i H; [reflexivity|].
    cbn [seq flat_map]. rewrite IH by lia.
    rewrite (skipn_nth_cons volumes i 0) by lia. reflexivity. }
  apply (G 0%nat). exact H.
Qed.

(** X1.  The header codec: for a header with its 6 timestamp bytes,
    [pack_header] stores tag, timestamp bytes and count in this order in
    the 8 bytes at [buffer] and nowhere else, and [unpack_header] gives
    the header back from them; both return 8. *)
Theorem header_codec_round_trip (header : MitchHeader.t) (m : mem)
    (buffer : nat) :
  length (MitchHeader.timestamp header) = 6%nat ->
  let '(m', packed) := pack_header header m buffer in
  packed = 8 /\
  load m' buffer 8
  = [MitchHeader.message_type header] ++ MitchHeader.timestamp header
    ++ [MitchHeader.count header] /\
  (forall q, (q < buffer \/ buffer + 8 <= q)%nat -> m' q = m q) /\
  unpack_header m' buffer = (header, 8).
Proof.
  intros Hts.
  pose proof (header_round_trip header m buffer Hts) as Hrt.
  rewrite pack_header_image in * by lia. cbn [fst] in Hrt.
  assert (Hw : header_wire header
               = [MitchHeader.message_type header]
                 ++ MitchHeader.timestamp header
                 ++ [MitchHeader.count header]).
  { unfold header_wire. now rewrite firstn_all2 by lia. }
  assert (Hl : length (header_wire header) = 8%nat).
  { rewrite Hw. cbn [app length]. rewrite length_app, Hts. reflexivity. }
  split; [reflexivity|]. split; [|split].
  - rewrite <- Hw. now apply load_write_bytes_same.
  - intros q Hq. apply write_bytes_outside. lia.
  - exact Hrt.
Qed.

(** X2.  The three fixed-size encoders store into the 32 bytes at
    [buffer] only: every other byte of memory is as it was. *)
Theorem fixed_encoders_in_bounds (P : Platform) (trade : Trade.t)
    (order : Order.t) (ticker : Tick.t) (m : mem) (buffer q : nat) :
  (q < buffer \/ buffer + 32 <= q)%nat ->
  fst (pack_trade_body trade m buffer) q = m q /\
  fst (pack_order_body order m buffer) q = m q /\
  fst (pack_ticker_body ticker m buffer) q = m q.
Proof.
  intros Hq. split; [|split].
  - cbv beta zeta delta [pack_trade_body fst]. wire_form. mem_simpl.
    reflexivity.
  - cbv beta zeta delta [pack_order_body fst]. wire_form. mem_simpl.
    reflexivity.
  - cbv beta zeta delta [pack_ticker_body fst]. wire_form. mem_simpl.
    reflexivity.
Qed.

(** X3.  What the fixed-size encoders leave in the 32 bytes: each integer
    and each double pattern most significant byte first, in field order;
    a trade ends in its side byte and 7 zero bytes, an order in its
    type-and-side byte, its 6 expiry bytes and its padding byte. *)
Theorem fixed_bodies_wire_layout (P : Platform) (trade : Trade.t)
    (order : Order.t) (ticker : Tick.t) (m : mem) (buffer : nat) :
  length (Order.expiry order) = 6%nat ->
  load (fst (pack_trade_body trade m buffer)) buffer 32
  = be_bytes 8 (Trade.ticker_id trade) ++ be_bytes 8 (Trade.price trade)
    ++ be_bytes 4 (Trade.quantity trade) ++ be_bytes 4 (Trade.trade_id trade)
    ++ [Trade.side trade] ++ repeat x00 7 /\
  load (fst (pack_order_body order m buffer)) buffer 32
  = be_bytes 8 (Order.ticker_id order) ++ be_bytes 4 (Order.order_id order)
    ++ be_bytes 8 (Order.price order) ++ be_bytes 4 (Order.quantity order)
    ++ [Order.type_and_side order] ++ Order.expiry order
    ++ [Order.padding order] /\
  load (fst (pack_ticker_body ticker m buffer)) buffer 32
  = be_bytes 8 (Tick.ticker_id ticker) ++ be_bytes 8 (Tick.bid_price ticker)
    ++ be_bytes 8 (Tick.ask_price ticker)
    ++ be_bytes 4 (Tick.bid_volume ticker)
    ++ be_bytes 4 (Tick.ask_volume ticker).
Proof.
  intros Hexp. split; [|split].
  - rewrite pack_trade_body_image. apply load_write_bytes_same.
    unfold trade_wire. now rewrite !length_app, !be_bytes_length.
  - rewrite pack_order_body_image by lia. cbn [fst].
    unfold order_wire.
    rewrite (firstn_all2 (n := 6%nat) (Order.expiry order)) by lia.
    apply load_write_bytes_same.
    rewrite !length_app, !be_bytes_length, Hexp. reflexivity.
  - rewrite pack_ticker_body_image. apply load_write_bytes_same.
    unfold ticker_wire. now rewrite !length_app, !be_bytes_length.
Qed.

(** X4.  The encoders do not depend on the host: compiled for any two
    platforms, each of the four body encoders leaves the same memory and
    returns the same length. *)
Theorem encoders_host_independent (P1 P2 : Platform) (trade : Trade.t)
    (order : Order.t) (ticker : Tick.t) (order_book : OrderBook.t)
    (volumes : list Z) (m : mem) (buffer : nat) :
  pack_trade_body (P := P1) trade m buffer
  = pack_trade_body (P := P2) trade m buffer /\
  pack_order_body (P := P1) order m buffer
  = pack_order_body (P := P2) order m buffer /\
  pack_ticker_body (P := P1) ticker m buffer
  = pack_ticker_body (P := P2) ticker m buffer /\
  pack_order_book_body (P := P1) order_book volumes m buffer
  = pack_order_book_body (P := P2) order_book volumes m buffer.
Proof.
  split; [|split; [|split]].
  - now rewrite (pack_trade_body_image (P := P1)),
      (pack_trade_body_image (P := P2)).
  - cbv beta zeta delta [pack_order_body].
    wire_form_at P1. wire_form_at P2. reflexivity.
  - now rewrite (pack_ticker_body_image (P := P1)),
      (pack_ticker_body_image (P := P2)).
  - rewrite (surjective_pairing (pack_order_book_body (P := P1) _ _ _ _)).
    rewrite (surjective_pairing (pack_order_book_body (P := P2) _ _ _ _)).
    rewrite (pack_order_book_body_image (P := P1)),
      (pack_order_book_body_image (P := P2)).
    reflexivity.
Qed.

(** X5.  Neither do the decoders: compiled for any two platforms, each of
    the four body decoders reads the same record, volumes and length out
    of the same memory. *)
Theorem decoders_host_independent (P1 P2 : Platform) (m : mem)
    (buffer : nat) :
  unpack_trade_body (P := P1) m buffer
  = unpack_trade_body (P := P2) m buffer /\
  unpack_order_body (P := P1) m buffer
  = unpack_order_body (P := P2) m buffer /\
  unpack_ticker_body (P := P1) m buffer
  = unpack_ticker_body (P := P2) m buffer /\
  unpack_order_book_body (P := P1) m buffer
  = unpack_order_book_body (P := P2) m buffer.
Proof.
  split; [|split; [|split]].
  - cbv beta zeta delta [unpack_trade_body].
    wire_form_at P1. wire_form_at P2. reflexivity.
  - cbv beta zeta delta [unpack_order_body].
    wire_form_at P1. wire_form_at P2. reflexivity.
  - cbv beta zeta delta [unpack_ticker_body].
    wire_form_at P1. wire_form_at P2. reflexivity.
  - cbv beta zeta delta [unpack_order_book_body].
    wire_form_at P1. wire_form_at P2.
    rewrite (unpack_volumes_wire P1), (unpack_volumes_wire P2).
    reflexivity.
Qed.

Lemma be_bytes_be_value_load (m : mem) (p n : nat) :
  be_bytes n (be_value (load m p n)) = load m p n.
Proof.
  rewrite <- (load_length m p n) at 1. apply be_bytes_be_value.
Qed.

(** X6.  The decoders look at their own bytes only: a memory that agrees
    on the 8 bytes at [buffer] gives the same header, and one that agrees
    on the 32 bytes at [buffer] gives the same trade, order and tick. *)
Theorem decoders_read_their_bytes_only (P : Platform) (m m' : mem)
    (buffer : nat) :
  ((forall q, (buffer <= q < buffer + 8)%nat -> m' q = m q) ->
   unpack_header m' buffer = unpack_header m buffer) /\
  ((forall q, (buffer <= q < buffer + 32)%nat -> m' q = m q) ->
   unpack_trade_body m' buffer = unpack_trade_body m buffer /\
   unpack_order_body m' buffer = unpack_order_body m buffer /\
   unpack_ticker_body m' buffer = unpack_ticker_body m buffer).
Proof.
  split.
  - intros H. cbv beta zeta delta [unpack_header].
    rewrite (load_ext m m') by (intros q Hq; apply H; lia).
    rewrite !H by lia. reflexivity.
  - intros H. split; [|split].
    + cbv beta zeta delta [unpack_trade_body read_double_be].
      rewrite !(load_ext m m') by (intros q Hq; apply H; lia).
      rewrite !H by lia. reflexivity.
    + cbv beta zeta delta [unpack_order_body read_double_be].
      rewrite !(load_ext m m') by (intros q Hq; apply H; lia).
      rewrite !H by lia. reflexivity.
    + cbv beta zeta delta [unpack_ticker_body read_double_be].
      rewrite !(load_ext m m') by (intros q Hq; apply H; lia).
      reflexivity.
Qed.

(** X7.  Decoding 32 bytes and encoding the record again gives the bytes
    back: all 32 of them for an order and for a tick, and for a trade the
    first 25 followed by 7 zero bytes, whatever the reserved bytes
    were. *)
Theorem decode_encode_reproduces_bytes (P : Platform) (m m' : mem)
    (src dst : nat) :
  load (fst (pack_trade_body (fst (unpack_trade_body m src)) m' dst)) dst 32
  = load m src 25 ++ repeat x00 7 /\
  load (fst (pack_order_body (fst (unpack_order_body m src)) m' dst)) dst 32
  = load m src 32 /\
  load (fst (pack_ticker_body (fst (unpack_ticker_body m src)) m' dst)) dst 32
  = load m src 32.
Proof.
  split; [|split].
  - rewrite pack_trade_body_image. cbn [fst].
    rewrite load_write_bytes_same
      by (unfold trade_wire; now rewrite !length_app, !be_bytes_length).
    cbv beta zeta delta [unpack_trade_body trade_wire fst].
    cbn [Trade.ticker_id Trade.price Trade.quantity Trade.trade_id
         Trade.side].
    wire_form. rewrite !be_bytes_be_value_load.
    change 25%nat with (8 + (8 + (4 + (4 + 1))))%nat.
    rewrite !load_app, <- !app_assoc. reflexivity.
  - assert (He : length (Order.expiry (fst (unpack_order_body m src)))
                 = 6%nat)
      by (cbv beta zeta delta [unpack_order_body]; cbn [fst Order.expiry];
          apply load_length).
    rewrite pack_order_body_image by lia. cbn [fst].
    unfold order_wire.
    rewrite (firstn_all2 (n := 6%nat)) by lia.
    rewrite load_write_bytes_same
      by (rewrite !length_app, !be_bytes_length, He; reflexivity).
    clear He.
    cbv beta zeta delta [unpack_order_body fst].
    cbn [Order.ticker_id Order.order_id Order.price Order.quantity
         Order.type_and_side Order.expiry Order.padding].
    wire_form. rewrite !be_bytes_be_value_load.
    change 32%nat with (8 + (4 + (8 + (4 + (1 + (6 + 1))))))%nat.
    rewrite !load_app. reflexivity.
  - rewrite pack_ticker_body_image. cbn [fst].
    rewrite load_write_bytes_same
      by (unfold ticker_wire; now rewrite !length_app, !be_bytes_length).
    cbv beta zeta delta [unpack_ticker_body ticker_wire fst].
    cbn [Tick.ticker_id Tick.bid_price Tick.ask_price Tick.bid_volume
         Tick.ask_volume].
    wire_form. rewrite !be_bytes_be_value_load.
    change 32%nat with (8 + (8 + (8 + (4 + 4))))%nat.
    rewrite !load_app. reflexivity.
Qed.

(** X8.  The order-book encoder, given an array that holds the
    [num_ticks] entries it reads: the 32 bytes at [buffer] are the ticker
    id, the two double patterns and [num_ticks], most significant byte
    first, the side byte and 5 zero bytes; after them come the first
    [num_ticks] volumes, 4 bytes each, most significant byte first and in
    array order; and no byte outside these [32 + 4 * num_ticks] is
    stored to. *)
Theorem order_book_encoder_layout (P : Platform) (order_book : OrderBook.t)
    (volumes : list Z) (m : mem) (buffer : nat) :
  let n := Z.to_nat (OrderBook.num_ticks order_book) in
  (n <= length volumes)%nat ->
  let m' := fst (pack_order_book_body order_book volumes m buffer) in
  load m' buffer 32
  = be_bytes 8 (OrderBook.ticker_id order_book)
    ++ be_bytes 8 (OrderBook.first_tick order_book)
    ++ be_bytes 8 (OrderBook.tick_size order_book)
    ++ be_bytes 2 (OrderBook.num_ticks order_book)
    ++ [OrderBook.side order_book] ++ repeat x00 5 /\
  load m' (buffer + 32) (4 * n)
  = flat_map (be_bytes 4) (firstn n volumes) /\
  (forall q, (q < buffer \/ buffer + (32 + 4 * n) <= q)%nat -> m' q = m q).
Proof.
  intros n Hn m'. unfold m'. rewrite pack_order_book_body_image.
  pose proof (order_book_wire_length order_book volumes) as Hl.
  fold n in Hl.
  assert (Hw : order_book_wire order_book volumes
               = (be_bytes 8 (OrderBook.ticker_id order_book)
                  ++ be_bytes 8 (OrderBook.first_tick order_book)
                  ++ be_bytes 8 (OrderBook.tick_size order_book)
                  ++ be_bytes 2 (OrderBook.num_ticks order_book)
                  ++ [OrderBook.side order_book] ++ repeat x00 5)
                 ++ flat_map (be_bytes 4) (firstn n volumes)).
  { unfold order_book_wire. fold n.
    rewrite volumes_wire_firstn by exact Hn.
    now rewrite <- !app_assoc. }
  split; [|split].
  - rewrite load_write_bytes_prefix by lia.
    rewrite Hw. apply firstn_app_exact.
    now rewrite !length_app, !be_bytes_length.
  - rewrite load_write_bytes_part by lia.
    rewrite Hw, skipn_app_exact
      by now rewrite !length_app, !be_bytes_length.
    apply firstn_all2.
    rewrite Hw, length_app, !length_app, !be_bytes_length in Hl.
    cbn [length repeat] in Hl. lia.
  - intros q Hq. apply write_bytes_outside. lia.
Qed.

(** ** Timestamps and the type-and-side byte *)

Lemma lor_shift_add (hi lo k : Z) :
  0 <= k -> 0 <= lo < 2 ^ k -> Z.lor (hi * 2 ^ k) lo = hi * 2 ^ k + lo.
Proof.
  intros Hk Hlo.
  assert (H0 : Z.land (hi * 2 ^ k) lo = 0).
  { apply Z.bits_inj'. intros n Hn.
    rewrite Z.land_spec, Z.bits_0.
    destruct (Z.lt_ge_cases n k) as [Hlt|Hge].
    - now rewrite Z.mul_pow2_bits_low.
    - rewrite <- (Z.mod_small lo (2 ^ k)) by exact Hlo.
      rewrite Z.mod_pow2_bits_high by lia. apply andb_false_r. }
  now rewrite <- Z.lxor_lor, <- Z.add_nocarry_lxor.
Qed.

Lemma le_bytes_mod (k : nat) (x : Z) :
  le_bytes k (x mod 256 ^ Z.of_nat k) = le_bytes k x.
Proof.
  revert x. induction k as [|k IH]; intros x; [reflexivity|].
  rewrite Nat2Z.inj_succ, Z.pow_succ_r by lia.
  assert (Hp : 0 < 256 ^ Z.of_nat k) by (apply Z.pow_pos_nonneg; lia).
  cbn [le_bytes]. rewrite Z.rem_mul_r by lia.
  set (y := (x / 256) mod 256 ^ Z.of_nat k).
  replace (x mod 256 + 256 * y) with (x mod 256 + y * 256) by lia.
  f_equal.
  - rewrite Z.mod_add, Z.mod_mod by lia. reflexivity.
  - rewrite Z.div_add by lia.
    rewrite (Z.div_small (x mod 256)) by (apply Z.mod_pos_bound; lia).
    apply IH.
Qed.

Lemma write_timestamp_48_image (m : mem) (dest : nat) (nanos : Z) :
  write_timestamp_48 m dest nanos = write_bytes m dest (be_bytes 6 nanos).
Proof.
  cbv beta zeta delta [write_timestamp_48].
  change 0xFF with (Z.ones 8).
  rewrite !Z.land_ones, !Z.shiftr_div_pow2 by lia.
  change (2 ^ 8) with 256. rewrite !byte_of_Z_mod.
  unfold be_bytes. cbn [le_bytes rev app write_bytes].
  rewrite !byte_of_Z_mod, !Z.div_div by lia.
  rewrite Nat.add_0_r.
  replace (dest + 1)%nat with (S dest) by lia.
  replace (dest + 2)%nat with (S (S dest)) by lia.
  replace (dest + 3)%nat with (S (S (S dest))) by lia.
  replace (dest + 4)%nat with (S (S (S (S dest)))) by lia.
  replace (dest + 5)%nat with (S (S (S (S (S dest))))) by lia.
  reflexivity.
Qed.

Lemma read_timestamp_48_value (m : mem) (src : nat) :
  read_timestamp_48 m src = be_value (load m src 6).
Proof.
  cbv beta zeta delta [read_timestamp_48].
  pose proof (Z_of_byte_range (m (src + 0)%nat)) as R0.
  pose proof (Z_of_byte_range (m (src + 1)%nat)) as R1.
  pose proof (Z_of_byte_range (m (src + 2)%nat)) as R2.
  pose proof (Z_of_byte_range (m (src + 3)%nat)) as R3.
  pose proof (Z_of_byte_range (m (src + 4)%nat)) as R4.
  pose proof (Z_of_byte_range (m (src + 5)%nat)) as R5.
  rewrite <- !Z.lor_assoc. rewrite !Z.shiftl_mul_pow2 by lia.
  rewrite (lor_shift_add _ _ 8) by lia.
  rewrite (lor_shift_add _ _ 16) by lia.
  rewrite (lor_shift_add _ _ 24) by lia.
  rewrite (lor_shift_add _ _ 32) by lia.
  rewrite (lor_shift_add _ _ 40) by lia.
  unfold be_value, load. cbn [seq map rev app le_value].
  rewrite Nat.add_0_r in *.
  replace (S src) with (src + 1)%nat by lia.
  replace (S (src + 1)) with (src + 2)%nat by lia.
  replace (S (src + 2)) with (src + 3)%nat by lia.
  replace (S (src + 3)) with (src + 4)%nat by lia.
  replace (S (src + 4)) with (src + 5)%nat by lia.
  lia.
Qed.

(** X9.  [write_timestamp_48] stores the low 48 bits of [nanos] in 6
    bytes, most significant first, and nothing else; reading them back
    with [read_timestamp_48] gives [nanos mod 2^48].  So a value below
    2^48 comes back unchanged, and anything above is cut down to its low
    48 bits. *)
Theorem timestamp_48_round_trip (m : mem) (dest : nat) (nanos : Z) :
  let m' := write_timestamp_48 m dest nanos in
  load m' dest 6 = be_bytes 6 nanos /\
  (forall q, (q < dest \/ dest + 6 <= q)%nat -> m' q = m q) /\
  read_timestamp_48 m' dest = nanos mod 2 ^ 48.
Proof.
  intros m'. unfold m'. rewrite write_timestamp_48_image.
  assert (Hl : load (write_bytes m dest (be_bytes 6 nanos)) dest 6
               = be_bytes 6 nanos)
    by apply load_write_bytes_same, be_bytes_length.
  split; [exact Hl|]. split.
  - intros q Hq. apply write_bytes_outside. rewrite be_bytes_length. lia.
  - rewrite read_timestamp_48_value, Hl.
    pose proof (be_value_range (be_bytes 6 nanos)) as R.
    rewrite be_bytes_length in R.
    assert (E : be_bytes 6 (nanos mod 2 ^ 48) = be_bytes 6 nanos).
    { unfold be_bytes. f_equal. apply (le_bytes_mod 6). }
    rewrite <- E. apply be_value_be_bytes.
    apply Z.mod_pos_bound. reflexivity.
Qed.

Lemma In_all_bytes (b : byte) : In b all_bytes.
Proof.
  unfold all_bytes. rewrite <- (byte_of_Z_of_byte b).
  pose proof (Z_of_byte_range b) as R.
  rewrite <- (Z2Nat.id (Z_of_byte b)) by lia.
  apply (in_map (fun n => byte_of_Z (Z.of_nat n))).
  apply in_seq. lia.
Qed.

(** A check that holds on each of the 256 bytes holds on every byte. *)
Lemma forall_bytes (f : byte -> bool) :
  forallb f all_bytes = true -> forall b, f b = true.
Proof.
  intros H b. rewrite forallb_forall in H. apply H, In_all_bytes.
Qed.

(** X10.  Splitting a type-and-side byte and combining the parts again
    gives the byte back, for every byte; the side extracted is 0 or 1 and
    the order type at most 127. *)
Theorem type_and_side_extract_combine (type_and_side : byte) :
  combine_type_and_side (extract_order_type type_and_side)
    (extract_side type_and_side)
  = type_and_side /\
  Z_of_byte (extract_side type_and_side) <= 1 /\
  Z_of_byte (extract_order_type type_and_side) <= 127.
Proof.
  pose proof (forall_bytes
    (fun b =>
       Byte.eqb (combine_type_and_side (extract_order_type b)
                   (extract_side b)) b
       && (Z_of_byte (extract_side b) <=? 1)
       && (Z_of_byte (extract_order_type b) <=? 127))
    ltac:(vm_compute; reflexivity) type_and_side) as H.
  cbv beta in H.
  apply andb_prop in H as [H H3]. apply andb_prop in H as [H1 H2].
  apply Byte.byte_dec_bl in H1. apply Z.leb_le in H2, H3.
  repeat split; assumption.
Qed.

(** X11.  Combining an order type with a side of 0 or 1 and extracting
    again gives the side back, and the order type reduced modulo 128: an
    order type up to 127 comes back unchanged, a larger one loses its top
    bit. *)
Theorem type_and_side_combine_extract (order_type side : byte) :
  Z_of_byte side <= 1 ->
  extract_side (combine_type_and_side order_type side) = side /\
  Z_of_byte (extract_order_type (combine_type_and_side order_type side))
  = Z_of_byte order_type mod 128.
Proof.
  intros Hs.
  assert (Hside : side = x00 \/ side = x01).
  { pose proof (Z_of_byte_range side) as R.
    rewrite <- (byte_of_Z_of_byte side).
    assert (E : Z_of_byte side = 0 \/ Z_of_byte side = 1) by lia.
    destruct E as [-> | ->]; [left | right]; reflexivity. }
  pose proof (forall_bytes
    (fun t =>
       forallb
         (fun s =>
            Byte.eqb (extract_side (combine_type_and_side t s)) s
            && (Z_of_byte (extract_order_type (combine_type_and_side t s))
                =? Z_of_byte t mod 128))
         [x00; x01])
    ltac:(vm_compute; reflexivity) order_type) as H.
  cbv beta in H. rewrite forallb_forall in H.
  assert (Hin : In side [x00; x01])
    by (destruct Hside as [-> | ->]; cbn; tauto).
  specialize (H side Hin). apply andb_prop in H as [H1 H2].
  apply Byte.byte_dec_bl in H1. apply Z.eqb_eq in H2.
  split; assumption.
Qed.

(** X12.  [combine_type_and_side] does not check its arguments: for every
    order type and side byte, bit 0 of the result is bit 0 of the side,
    and the order type extracted is the order type given or-ed with the
    side's upper bits, modulo 128. *)
Theorem type_and_side_combine_unchecked (order_type side : byte) :
  extract_side (combine_type_and_side order_type side) = extract_side side /\
  Z_of_byte (extract_order_type (combine_type_and_side order_type side))
  = Z.lor (Z_of_byte order_type) (Z_of_byte side / 2) mod 128.
Proof.
  pose proof (forall_bytes
    (fun t =>
       forallb
         (fun s =>
            Byte.eqb (extract_side (combine_type_and_side t s))
              (extract_side s)
            && (Z_of_byte (extract_order_type (combine_type_and_side t s))
                =? Z.lor (Z_of_byte t) (Z_of_byte s / 2) mod 128))
         all_bytes)
    ltac:(vm_compute; reflexivity) order_type) as H.
  cbv beta in H. rewrite forallb_forall in H.
  specialize (H side (In_all_bytes side)). apply andb_prop in H as [H1 H2].
  apply Byte.byte_dec_bl in H1. apply Z.eqb_eq in H2.
  split; assumption.
Qed.

(** ** Sending *)

Section Sending.

Local Open Scope nat_scope.

Lemma mitch_send_tcp_loop_step (k : sink) (m : mem)
    (data total_sent length : nat) :
  mitch_send_tcp_loop k m data total_sent length
  = if total_sent <? length then
      let '(sent, k') :=
        send k m (data + total_sent) (length - total_sent) in
      if (sent <=? 0)%Z then ((-1)%Z, k')
      else mitch_send_tcp_loop k' m data (total_sent + Z.to_nat sent) length
    else (0%Z, k).
Proof.
  rewrite mitch_send_tcp_loop_equation_1.
  destruct (lt_dec total_sent length) as [Hlt|Hge].
  - apply Nat.ltb_lt in Hlt as Hb. rewrite Hb. cbn.
    destruct (send k m (data + total_sent) (length - total_sent))
      as [sent k'].
    cbn. destruct (Z_le_gt_dec sent 0) as [Hle|Hgt]; cbn.
    + apply Z.leb_le in Hle. now rewrite Hle.
    + assert (Hb' : (sent <=? 0)%Z = false) by (apply Z.leb_gt; lia).
      now rewrite Hb'.
  - assert (Hb : (total_sent <? length) = false)
      by (apply Nat.ltb_ge; lia).
    now rewrite Hb.
Qed.

(** The loop in one formula: it returns 0 when the sink has room for what
    is left and -1 otherwise, and the sink has taken, in order, what is
    left or as much of it as it had room for. *)
Lemma mitch_send_tcp_loop_result (u : list send_event) (acc : list byte)
    (m : mem) (data total_sent length : nat) :
  let todo := length - total_sent in
  let k' := snd (mitch_send_tcp_loop (mk_sink u acc) m data total_sent
                   length) in
  fst (mitch_send_tcp_loop (mk_sink u acc) m data total_sent length)
  = (if todo <=? room u then 0%Z else (-1)%Z) /\
  accepted k' = acc ++ load m (data + total_sent) (Nat.min todo (room u)).
Proof.
  revert acc total_sent.
  induction u as [|e u IH]; intros acc total todo k'; subst todo k';
    rewrite mitch_send_tcp_loop_step;
    destruct (Nat.ltb_spec total length) as [Hlt|Hge].
  - cbn. rewrite Nat.min_0_r. cbn. rewrite app_nil_r.
    destruct (length - total) eqn:E; [lia|]. now split.
  - replace (length - total) with 0 by lia. cbn. now rewrite app_nil_r.
  - destruct e as [n| |].
    + cbn [send upcoming accepted room].
      set (todo := length - total).
      assert (Hrecv : (Z.of_nat (Nat.min todo (S n)) <=? 0)%Z = false)
        by (apply Z.leb_gt; unfold todo; lia).
      rewrite Hrecv, Nat2Z.id.
      specialize (IH (acc ++ load m (data + total) (Nat.min todo (S n)))
                    (total + Nat.min todo (S n))).
      cbv zeta in IH. destruct IH as [IH1 IH2].
      rewrite IH1, IH2. clear IH1 IH2.
      replace (length - (total + Nat.min todo (S n)))
        with (todo - Nat.min todo (S n)) by (unfold todo; lia).
      split.
      * destruct (Nat.leb_spec (todo - Nat.min todo (S n)) (room u));
          destruct (Nat.leb_spec todo (S n + room u)); try reflexivity; lia.
      * rewrite <- app_assoc. f_equal.
        replace (data + (total + Nat.min todo (S n)))
          with (data + total + Nat.min todo (S n)) by lia.
        rewrite <- load_app. f_equal. lia.
    + cbn. rewrite Nat.min_0_r. cbn. rewrite app_nil_r.
      destruct (length - total) eqn:E; [lia|]. now split.
    + cbn. rewrite Nat.min_0_r. cbn. rewrite app_nil_r.
      destruct (length - total) eqn:E; [lia|]. now split.
  - replace (length - total) with 0 by lia. cbn. now rewrite app_nil_r.
Qed.

End Sending.

(** X13.  [mitch_send_tcp] on a sink with room for [length] bytes returns
    0, and the sink has taken exactly the [length] bytes at [data], in
    order, however the room is spread over the [send] calls.  With
    [length = 0] this is the case for every sink. *)
Theorem send_all_accepted (k : sink) (m : mem) (data length : nat) :
  (length <= room (upcoming k))%nat ->
  let '(ret, k') := mitch_send_tcp k m data length in
  ret = 0 /\ accepted k' = accepted k ++ load m data length.
Proof.
  intros H. destruct k as [u acc]. cbn [upcoming accepted] in *.
  pose proof (mitch_send_tcp_loop_result u acc m data 0 length) as R.
  cbv zeta in R. unfold mitch_send_tcp.
  destruct (mitch_send_tcp_loop (mk_sink u acc) m data 0 length)
    as [ret k'].
  cbn [fst snd] in R. destruct R as [R1 R2].
  rewrite Nat.sub_0_r, Nat.add_0_r in *.
  assert (Hb : (length <=? room u)%nat = true) by now apply Nat.leb_le.
  rewrite Hb in R1. rewrite Nat.min_l in R2 by exact H.
  split; assumption.
Qed.

(** X14.  [mitch_send_tcp] on a sink that stalls, fails or closes before
    it has taken [length] bytes returns -1, and by then the sink has
    taken the first bytes of the message, as many as it had room for and
    fewer than [length]: the failure leaves a truncated message on the
    wire. *)
Theorem send_failure_leaves_prefix (k : sink) (m : mem) (data length : nat) :
  (room (upcoming k) < length)%nat ->
  let '(ret, k') := mitch_send_tcp k m data length in
  ret = -1 /\
  accepted k' = accepted k ++ firstn (room (upcoming k)) (load m data length).
Proof.
  intros H. destruct k as [u acc]. cbn [upcoming accepted] in *.
  pose proof (mitch_send_tcp_loop_result u acc m data 0 length) as R.
  cbv zeta in R. unfold mitch_send_tcp.
  destruct (mitch_send_tcp_loop (mk_sink u acc) m data 0 length)
    as [ret k'].
  cbn [fst snd] in R. destruct R as [R1 R2].
  rewrite Nat.sub_0_r, Nat.add_0_r in *.
  assert (Hb : (length <=? room u)%nat = false) by (apply Nat.leb_gt; lia).
  rewrite Hb in R1. rewrite Nat.min_r in R2 by lia.
  split; [exact R1|]. rewrite R2. f_equal.
  replace length with (room u + (length - room u))%nat at 1 by lia.
  rewrite load_app. symmetry. apply firstn_app_exact, load_length.
Qed.

(** ** More on the message reader *)

Lemma mitch_recv_tcp_cases (s : socket) (m : mem) (buffer length : nat) :
  ((length <= List.length (deliverable s))%nat /\
   mitch_recv_tcp s m buffer length
   = (0, advance s length,
      write_bytes m buffer (firstn length (deliverable s)))) \/
  ((List.length (deliverable s) < length)%nat /\
   fst (fst (mitch_recv_tcp s m buffer length)) = -1).
Proof.
  destruct (Nat.le_gt_cases length (List.length (deliverable s))) as [H|H].
  - left. split; [exact H|]. now apply mitch_recv_tcp_ok.
  - right. split; [exact H|]. now apply mitch_recv_tcp_fail.
Qed.

Lemma mitch_recv_tcp_ret (s : socket) (m : mem) (buffer length : nat) :
  fst (fst (mitch_recv_tcp s m buffer length)) = 0 \/
  fst (fst (mitch_recv_tcp s m buffer length)) = -1.
Proof.
  destruct (mitch_recv_tcp_cases s m buffer length) as [[_ E]|[_ E]].
  - left. now rewrite E.
  - right. exact E.
Qed.

Section ReaderMore.

Context {P : Platform}.

(** X15.  The results of [mitch_recv_message], on every stream and for
    every [buffer_size]: -1, -2, -3, or a length that is at least 8, at
    most [8 + 32 + 4 * 65535], and never more than [buffer_size].  It
    never returns 0. *)
Theorem recv_message_results (s : socket) (m : mem) (buffer : nat)
    (buffer_size : Z) :
  let ret := fst (fst (mitch_recv_message s m buffer buffer_size)) in
  ret = -1 \/ ret = -2 \/ ret = -3 \/
  (8 <= ret <= 262180 /\ ret <= buffer_size).
Proof.
  cbv zeta. unfold mitch_recv_message.
  destruct (mitch_recv_tcp s m buffer 8) as [[r1 s1] m1].
  destruct (negb (r1 =? 0)); [now left|].
  destruct (Byte.eqb _ _).
  - destruct (negb (_ =? 1)); [now right; right; left|].
    destruct (mitch_recv_tcp s1 m1 (buffer + 8) 32) as [[r2 s2] m2].
    destruct (negb (r2 =? 0)); [now left|].
    rewrite ntohs_load.
    set (num_ticks := be_value (load m2 (buffer + 8 + 24) 2)).
    assert (Hnt : u16 num_ticks) by apply u16_be, load_length.
    destruct (size_order_book_body num_ticks Hnt) as (E4 & E32 & E40).
    rewrite E40, E4. unfold u16 in Hnt.
    rewrite int_wrap_small by lia.
    destruct (8 + 32 + 4 * num_ticks >? buffer_size) eqn:Hcmp;
      [now right; left|].
    rewrite Z.gtb_ltb in Hcmp. apply Z.ltb_ge in Hcmp.
    destruct (4 * num_ticks >? 0).
    + destruct (mitch_recv_tcp s2 m2 (buffer + 8 + 32)
                  (Z.to_nat (4 * num_ticks))) as [[r3 s3] m3].
      destruct (negb (r3 =? 0)); [now left|].
      cbn [fst]. right; right; right. lia.
    + cbn [fst]. right; right; right. lia.
  - set (count := MitchHeader.count (fst (unpack_header m1 buffer))).
    destruct (size_fixed_body count) as [E0 E8]. rewrite E8, E0.
    pose proof (Z_of_byte_range count) as R.
    rewrite int_wrap_small by lia.
    destruct (8 + 32 * Z_of_byte count >? buffer_size) eqn:Hcmp;
      [now right; left|].
    rewrite Z.gtb_ltb in Hcmp. apply Z.ltb_ge in Hcmp.
    destruct (32 * Z_of_byte count >? 0).
    + destruct (mitch_recv_tcp s1 m1 (buffer + 8)
                  (Z.to_nat (32 * Z_of_byte count))) as [[r3 s3] m3].
      destruct (negb (r3 =? 0)); [now left|].
      cbn [fst]. right; right; right. lia.
    + cbn [fst]. right; right; right. lia.
Qed.

(** X16.  With a buffer of at least 40 bytes [mitch_recv_message] stays
    inside the buffer on every stream: whatever arrives and whatever the
    result, no byte outside the [buffer_size] bytes at [buffer] is stored
    to.  A buffer of at least 8 bytes is enough when the stream does not
    start with the order-book tag. *)
Theorem recv_message_in_bounds (s : socket) (m : mem) (buffer : nat)
    (buffer_size : Z) (q : nat) :
  8 <= buffer_size ->
  40 <= buffer_size \/
  nth 0 (deliverable s) x00 <> MITCH_MSG_TYPE_ORDER_BOOK ->
  (q < buffer \/ buffer + Z.to_nat buffer_size <= q)%nat ->
  snd (mitch_recv_message s m buffer buffer_size) q = m q.
Proof.
  intros H8 Hq40 Hq. unfold mitch_recv_message.
  pose proof (mitch_recv_tcp_outside s m buffer 8 q ltac:(lia)) as O1.
  destruct (mitch_recv_tcp_cases s m buffer 8) as [[Hlen E]|[Hlen E]].
  2:{ destruct (mitch_recv_tcp s m buffer 8) as [[r1 s1] m1].
      cbn [fst snd] in *. subst r1. exact O1. }
  rewrite E in *. cbn [snd] in O1. cbv beta iota. cbn [negb Z.eqb].
  set (m1 := write_bytes m buffer (firstn 8 (deliverable s))) in *.
  assert (Htag : MitchHeader.message_type (fst (unpack_header m1 buffer))
                 = nth 0 (deliverable s) x00).
  { cbv beta zeta delta [unpack_header]. cbn [fst MitchHeader.message_type].
    unfold m1. rewrite write_bytes_inside by (rewrite length_firstn; lia).
    destruct (deliverable s); [simpl in Hlen; lia | reflexivity]. }
  rewrite Htag.
  destruct (Byte.eqb _ _) eqn:Etag.
  - apply Byte.byte_dec_bl in Etag.
    assert (H40 : 40 <= buffer_size) by (destruct Hq40; [lia | contradiction]).
    destruct (negb (_ =? 1)); [exact O1|].
    pose proof (mitch_recv_tcp_outside (advance s 8) m1 (buffer + 8) 32 q
                  ltac:(lia)) as O2.
    destruct (mitch_recv_tcp (advance s 8) m1 (buffer + 8) 32)
      as [[r2 s2] m2].
    cbn [snd] in O2.
    destruct (negb (r2 =? 0)); [cbn [snd]; congruence|].
    rewrite ntohs_load.
    set (num_ticks := be_value (load m2 (buffer + 8 + 24) 2)).
    assert (Hnt : u16 num_ticks) by apply u16_be, load_length.
    destruct (size_order_book_body num_ticks Hnt) as (E4 & E32 & E40).
    rewrite E40, E4. unfold u16 in Hnt.
    destruct (8 + 32 + 4 * num_ticks >? buffer_size) eqn:Hcmp;
      [cbn [snd]; congruence|].
    rewrite Z.gtb_ltb in Hcmp. apply Z.ltb_ge in Hcmp.
    destruct (4 * num_ticks >? 0); [|cbn [snd]; congruence].
    pose proof (mitch_recv_tcp_outside s2 m2 (buffer + 8 + 32)
                  (Z.to_nat (4 * num_ticks)) q ltac:(lia)) as O3.
    destruct (mitch_recv_tcp s2 m2 (buffer + 8 + 32)
                (Z.to_nat (4 * num_ticks))) as [[r3 s3] m3].
    cbn [snd] in O3.
    destruct (negb (r3 =? 0)); cbn [snd]; congruence.
  - set (count := MitchHeader.count (fst (unpack_header m1 buffer))).
    destruct (size_fixed_body count) as [E0 E8]. rewrite E8, E0.
    pose proof (Z_of_byte_range count) as R.
    destruct (8 + 32 * Z_of_byte count >? buffer_size) eqn:Hcmp;
      [exact O1|].
    rewrite Z.gtb_ltb in Hcmp. apply Z.ltb_ge in Hcmp.
    destruct (32 * Z_of_byte count >? 0); [|exact O1].
    pose proof (mitch_recv_tcp_outside (advance s 8) m1 (buffer + 8)
                  (Z.to_nat (32 * Z_of_byte count)) q ltac:(lia)) as O3.
    destruct (mitch_recv_tcp (advance s 8) m1 (buffer + 8)
                (Z.to_nat (32 * Z_of_byte count))) as [[r3 s3] m3].
    cbn [snd] in O3.
    destruct (negb (r3 =? 0)); cbn [snd]; congruence.
Qed.

Lemma mitch_recv_message_no_header (s : socket) (m : mem) (buffer : nat)
    (buffer_size : Z) :
  (length (deliverable s) < 8)%nat ->
  fst (fst (mitch_recv_message s m buffer buffer_size)) = -1.
Proof.
  intros H. unfold mitch_recv_message.
  pose proof (mitch_recv_tcp_fail s m buffer 8 H) as Hfail.
  destruct (mitch_recv_tcp s m buffer 8) as [[r1 s1] m1].
  cbn [fst] in Hfail. subst r1. reflexivity.
Qed.

(** X17.  A stream that fails or closes anywhere inside a message gives
    -1: if what the stream delivers is a proper prefix of a complete
    message that the buffer could hold, [mitch_recv_message] returns -1,
    never a length. *)
Theorem truncated_message_fails (s : socket) (m : mem) (buffer : nat)
    (buffer_size : Z) (msg : list byte) (n : nat) :
  complete_message msg ->
  (n < length msg)%nat ->
  deliverable s = firstn n msg ->
  Z.of_nat (length msg) <= buffer_size ->
  fst (fst (mitch_recv_message s m buffer buffer_size)) = -1.
Proof.
  intros [H8 Hcase] Hn Hs Hfit.
  destruct (Nat.lt_ge_cases n 8) as [Hshort|Hlong].
  { apply mitch_recv_message_no_header.
    rewrite Hs, length_firstn. lia. }
  pose proof (firstn_skipn 8 msg) as Hmsg.
  assert (Hlen : length (firstn 8 msg) = 8%nat)
    by (rewrite length_firstn; lia).
  assert (Htag : nth 0 msg x00 = nth 0 (firstn 8 msg) x00)
    by (rewrite <- Hmsg at 1; rewrite app_nth1 by lia; reflexivity).
  assert (Hcnt : nth 7 msg x00 = nth 7 (firstn 8 msg) x00)
    by (rewrite <- Hmsg at 1; rewrite app_nth1 by lia; reflexivity).
  rewrite Htag, Hcnt in Hcase. clear Htag Hcnt H8.
  revert Hmsg Hlen Hcase.
  generalize (firstn 8 msg) as hdr, (skipn 8 msg) as body.
  intros hdr body <- Hlen Hcase.
  rewrite length_app, Hlen in *.
  rewrite firstn_app, Hlen, (firstn_all2 (n := n) hdr) in Hs by lia.
  destruct (Byte.eqb (nth 0 hdr x00) MITCH_MSG_TYPE_ORDER_BOOK) eqn:Eq.
  - apply Byte.byte_dec_bl in Eq. destruct Hcase as [Hcount Htotal].
    destruct (Nat.lt_ge_cases (n - 8) 32) as [Hp|Hp].
    { apply (order_book_prefix_missing s m buffer buffer_size hdr
               (firstn (n - 8) body)); try assumption.
      rewrite length_firstn. lia. }
    pose proof (be_value_range (firstn 2 (skipn 24 body))) as Hr.
    fold (wire_num_ticks body) in Hr.
    rewrite <- (wire_num_ticks_prefix body) in *.
    pose proof (firstn_skipn 32 body) as Hb.
    assert (Hplen : length (firstn 32 body) = 32%nat)
      by (rewrite length_firstn; lia).
    revert Hb Hplen Hr Htotal.
    generalize (firstn 32 body) as prefix, (skipn 32 body) as tail.
    intros prefix tail <- Hplen _ Htotal.
    rewrite length_app, Hplen in *.
    rewrite firstn_app, Hplen, (firstn_all2 (n := (n - 8)%nat) prefix) in Hs
      by lia.
    destruct (mitch_recv_message_order_book s m buffer buffer_size hdr prefix
                (firstn (n - 8 - 32) tail) Hs Hlen Hplen Eq Hcount)
      as (_ & Hrest & E).
    rewrite E. clear E.
    assert (Hcmp : (8 + 32 + 4 * wire_num_ticks prefix >? buffer_size)
                   = false)
      by (rewrite Z.gtb_ltb; apply Z.ltb_ge; lia).
    assert (Hpos : (4 * wire_num_ticks prefix >? 0) = true)
      by (apply Z.gtb_lt; lia).
    rewrite Hcmp, Hpos.
    pose proof (mitch_recv_tcp_fail (advance s 40)
                  (write_bytes m buffer (hdr ++ prefix)) (buffer + 40)
                  (Z.to_nat (4 * wire_num_ticks prefix))) as Hfail.
    rewrite Hrest, length_firstn in Hfail. specialize (Hfail ltac:(lia)).
    destruct (mitch_recv_tcp (advance s 40)
                (write_bytes m buffer (hdr ++ prefix)) (buffer + 40)
                (Z.to_nat (4 * wire_num_ticks prefix))) as [[r3 s3] m3].
    cbn [fst] in Hfail. subst r3. reflexivity.
  - assert (Hne : nth 0 hdr x00 <> MITCH_MSG_TYPE_ORDER_BOOK).
    { intros E. apply Byte.byte_dec_lb in E. congruence. }
    rewrite (mitch_recv_message_fixed s m buffer buffer_size hdr
               (firstn (n - 8) body) Hs Hlen Hne).
    pose proof (mitch_recv_message_header s m buffer buffer_size hdr
                  (firstn (n - 8) body) Hs Hlen) as (_ & Hrest & _).
    assert (Hcmp : (8 + 32 * Z_of_byte (nth 7 hdr x00) >? buffer_size)
                   = false)
      by (rewrite Z.gtb_ltb; apply Z.ltb_ge; lia).
    assert (Hpos : (32 * Z_of_byte (nth 7 hdr x00) >? 0) = true)
      by (apply Z.gtb_lt; lia).
    rewrite Hcmp, Hpos.
    pose proof (mitch_recv_tcp_fail (advance s 8) (write_bytes m buffer hdr)
                  (buffer + 8)
                  (Z.to_nat (32 * Z_of_byte (nth 7 hdr x00)))) as Hfail.
    rewrite Hrest, length_firstn in Hfail. specialize (Hfail ltac:(lia)).
    destruct (mitch_recv_tcp (advance s 8) (write_bytes m buffer hdr)
                (buffer + 8) (Z.to_nat (32 * Z_of_byte (nth 7 hdr x00))))
      as [[r3 s3] m3].
    cbn [fst] in Hfail. subst r3. reflexivity.
Qed.

(** X18.  Messages sent back to back are read one per call: when the
    stream delivers two complete messages one after the other, the first
    call returns the first message and leaves the stream at the start of
    the second, and a second call into the same buffer returns the second
    message, whatever the sizes of the partial reads. *)
Theorem consecutive_messages (s : socket) (m : mem) (buffer : nat)
    (buffer_size : Z) (msg1 msg2 rest : list byte) :
  complete_message msg1 ->
  complete_message msg2 ->
  deliverable s = msg1 ++ msg2 ++ rest ->
  Z.of_nat (length msg1) <= buffer_size ->
  Z.of_nat (length msg2) <= buffer_size ->
  let '(ret1, s1, m1) := mitch_recv_message s m buffer buffer_size in
  let '(ret2, s2, m2) := mitch_recv_message s1 m1 buffer buffer_size in
  ret1 = Z.of_nat (length msg1) /\
  load m1 buffer (length msg1) = msg1 /\
  ret2 = Z.of_nat (length msg2) /\
  load m2 buffer (length msg2) = msg2 /\
  deliverable s2 = rest.
Proof.
  intros H1 H2 Hs Hf1 Hf2.
  rewrite (mitch_recv_message_complete s m buffer buffer_size msg1
             (msg2 ++ rest) H1 Hs Hf1).
  assert (Hs1 : deliverable (advance s (length msg1)) = msg2 ++ rest).
  { rewrite deliverable_advance by (rewrite Hs, length_app; lia).
    now rewrite Hs, skipn_app_exact. }
  rewrite (mitch_recv_message_complete _ _ buffer buffer_size msg2 rest
             H2 Hs1 Hf2).
  repeat split.
  - now apply load_write_bytes_same.
  - now apply load_write_bytes_same.
  - rewrite deliverable_advance by (rewrite Hs1, length_app; lia).
    now rewrite Hs1, skipn_app_exact.
Qed.

End ReaderMore.

(** ** From the sender's records to the receiver's *)

Lemma mitch_send_tcp_ok (k : sink) (m : mem) (data length : nat) :
  (length <= room (upcoming k))%nat ->
  mitch_send_tcp k m data length
  = (0, snd (mitch_send_tcp k m data length)) /\
  accepted (snd (mitch_send_tcp k m data length))
  = accepted k ++ load m data length.
Proof.
  intros H. destruct k as [u acc]. cbn [upcoming accepted] in *.
  pose proof (mitch_send_tcp_loop_result u acc m data 0 length) as R.
  cbv zeta in R. unfold mitch_send_tcp.
  destruct (mitch_send_tcp_loop (mk_sink u acc) m data 0 length)
    as [ret k'].
  cbn [fst snd] in *. destruct R as [R1 R2].
  rewrite Nat.sub_0_r, Nat.add_0_r in *.
  assert (Hb : (length <=? room u)%nat = true) by now apply Nat.leb_le.
  rewrite Hb in R1. rewrite Nat.min_l in R2 by exact H.
  subst ret. split; [reflexivity | exact R2].
Qed.

Lemma unpack_header_ext (m m' : mem) (buffer : nat) :
  (forall q, (buffer <= q < buffer + 8)%nat -> m' q = m q) ->
  unpack_header m' buffer = unpack_header m buffer.
Proof.
  intros H. cbv beta zeta delta [unpack_header].
  rewrite (load_ext m m') by (intros q Hq; apply H; lia).
  rewrite !H by lia. reflexivity.
Qed.

Lemma header_wire_length (header : MitchHeader.t) :
  length (MitchHeader.timestamp header) = 6%nat ->
  length (header_wire header) = 8%nat.
Proof.
  intros H. unfold header_wire.
  rewrite length_app, length_app, length_firstn, H. reflexivity.
Qed.

Lemma trade_wire_length (trade : Trade.t) : length (trade_wire trade) = 32%nat.
Proof.
  unfold trade_wire. now rewrite !length_app, !be_bytes_length.
Qed.

(** What the receiver finds after a header and a body image have been
    stored one after the other. *)
Lemma unpack_header_of_wire (header : MitchHeader.t) (body : list byte)
    (m : mem) (buffer : nat) :
  length (MitchHeader.timestamp header) = 6%nat ->
  unpack_header (write_bytes m buffer (header_wire header ++ body)) buffer
  = (header, 8).
Proof.
  intros Hts.
  rewrite write_bytes_app, header_wire_length by exact Hts.
  rewrite (unpack_header_ext (write_bytes m buffer (header_wire header)))
    by (intros q Hq; apply write_bytes_outside; lia).
  pose proof (pack_header_image header m buffer ltac:(lia)) as E.
  pose proof (header_round_trip header m buffer Hts) as R.
  rewrite E in R. exact R.
Qed.

Lemma complete_fixed_message (header : MitchHeader.t) (body : list byte) :
  length (MitchHeader.timestamp header) = 6%nat ->
  MitchHeader.message_type header <> MITCH_MSG_TYPE_ORDER_BOOK ->
  Z.of_nat (length body) = 32 * Z_of_byte (MitchHeader.count header) ->
  complete_message (header_wire header ++ body).
Proof.
  intros Hts Htag Hbody.
  pose proof (header_wire_length header Hts) as Hl.
  split; [rewrite length_app; lia|].
  rewrite !app_nth1 by lia.
  change (nth 0 (header_wire header) x00)
    with (MitchHeader.message_type header).
  assert (Hc : nth 7 (header_wire header) x00 = MitchHeader.count header).
  { unfold header_wire. destruct (MitchHeader.timestamp header)
      as [|a [|b [|c [|d [|e [|f [|g l]]]]]]]; try discriminate.
    reflexivity. }
  rewrite Hc.
  destruct (Byte.eqb _ _) eqn:E.
  - apply Byte.byte_dec_bl in E. contradiction.
  - rewrite length_app, Hl. lia.
Qed.

(** X19.  A trade from sender to receiver.  The sender, on any platform,
    packs a header (any tag but 'q', count 1) and a valid trade behind it
    and sends the 40 bytes with [mitch_send_tcp] over a sink with room
    for them: the call returns 0 and the sink has taken 40 bytes.  On any
    stream that delivers these bytes, in whatever partial reads, a
    receiver on any platform with a buffer of at least 40 bytes gets 40
    from [mitch_recv_message], then the sender's header from
    [unpack_header] and the sender's trade, with zero padding, from
    [unpack_trade_body] at offset 8. *)
Theorem trade_message_end_to_end (P1 P2 : Platform)
    (header : MitchHeader.t) (trade : Trade.t)
    (k : sink) (ms : mem) (sbuf : nat) :
  length (MitchHeader.timestamp header) = 6%nat ->
  MitchHeader.message_type header <> MITCH_MSG_TYPE_ORDER_BOOK ->
  MitchHeader.count header = x01 ->
  Trade_valid trade ->
  (40 <= room (upcoming k))%nat ->
  let m1 := fst (pack_header header ms sbuf) in
  let m2 := fst (pack_trade_body (P := P1) trade m1 (sbuf + 8)) in
  let '(sent, k') := mitch_send_tcp k m2 sbuf 40 in
  sent = 0 /\
  exists wire,
    accepted k' = accepted k ++ wire /\ length wire = 40%nat /\
    forall (s : socket) (mr : mem) (rbuf : nat) (buffer_size : Z)
           (rest : list byte),
      deliverable s = wire ++ rest ->
      40 <= buffer_size ->
      let '(ret, s', mr') :=
        mitch_recv_message (P := P2) s mr rbuf buffer_size in
      ret = 40 /\ deliverable s' = rest /\
      unpack_header mr' rbuf = (header, 8) /\
      unpack_trade_body (P := P2) mr' (rbuf + 8)
      = (Trade.mk (Trade.ticker_id trade) (Trade.price trade)
           (Trade.quantity trade) (Trade.trade_id trade) (Trade.side trade)
           (repeat x00 7),
         32).
Proof.
  intros Hts Htag Hcount Hvalid Hroom m1 m2.
  pose proof (header_wire_length header Hts) as Hhl.
  pose proof (trade_wire_length trade) as Htl.
  set (wire := header_wire header ++ trade_wire trade).
  assert (Hwl : length wire = 40%nat)
    by (unfold wire; rewrite length_app; lia).
  assert (Hm2 : m2 = write_bytes ms sbuf wire).
  { unfold m2, m1, wire.
    rewrite pack_header_image by lia. cbn [fst].
    rewrite pack_trade_body_image. cbn [fst].
    now rewrite write_bytes_app, Hhl. }
  destruct (mitch_send_tcp_ok k m2 sbuf 40 Hroom) as [Es Ea].
  rewrite Es. split; [reflexivity|].
  exists wire. split; [|split; [exact Hwl|]].
  { rewrite Ea, Hm2. f_equal. now apply load_write_bytes_same. }
  intros s mr rbuf buffer_size rest Hs Hfit.
  assert (Hmsg : complete_message wire).
  { apply complete_fixed_message; try assumption.
    rewrite Hcount, Htl. reflexivity. }
  rewrite (mitch_recv_message_complete s mr rbuf buffer_size wire rest)
    by (assumption || lia).
  rewrite Hwl. split; [reflexivity|]. split; [|split].
  - rewrite deliverable_advance by (rewrite Hs, length_app; lia).
    rewrite Hs. apply skipn_app_exact. exact Hwl.
  - now apply unpack_header_of_wire.
  - unfold wire. rewrite write_bytes_app, Hhl.
    rewrite <- (trade_round_trip (P := P2) trade
                  (write_bytes mr rbuf (header_wire header)) (rbuf + 8))
      by exact Hvalid.
    now rewrite pack_trade_body_image.
Qed.

Lemma wire_num_ticks_order_book (order_book : OrderBook.t)
    (volumes : list Z) :
  u16 (OrderBook.num_ticks order_book) ->
  wire_num_ticks (order_book_wire order_book volumes)
  = OrderBook.num_ticks order_book.
Proof.
  intros H. unfold wire_num_ticks, order_book_wire.
  rewrite (app_assoc (be_bytes 8 _) (be_bytes 8 _)).
  rewrite (app_assoc (be_bytes 8 _ ++ be_bytes 8 _) (be_bytes 8 _)).
  rewrite skipn_app_exact by now rewrite !length_app, !be_bytes_length.
  rewrite firstn_app_exact by apply be_bytes_length.
  apply be_value_be_bytes. exact H.
Qed.

(** X20.  An order book from sender to receiver.  The sender, on any
    platform, packs a header with tag 'q' and count 1 and behind it a
    valid order book with its [num_ticks] volumes, and sends the
    [8 + 32 + 4 * num_ticks] bytes over a sink with room for them: the
    call returns 0.  On any stream that delivers these bytes, a receiver
    on any platform whose buffer holds them gets their number from
    [mitch_recv_message], then the sender's header, and from
    [unpack_order_book_body] at offset 8 the sender's order book (with
    zero padding), the same volumes and [32 + 4 * num_ticks]. *)
Theorem order_book_message_end_to_end (P1 P2 : Platform)
    (header : MitchHeader.t) (order_book : OrderBook.t) (volumes : list Z)
    (k : sink) (ms : mem) (sbuf : nat) :
  length (MitchHeader.timestamp header) = 6%nat ->
  MitchHeader.message_type header = MITCH_MSG_TYPE_ORDER_BOOK ->
  MitchHeader.count header = x01 ->
  OrderBook_valid order_book ->
  Forall u32 volumes ->
  length volumes = Z.to_nat (OrderBook.num_ticks order_book) ->
  let total := (8 + 32 + 4 * length volumes)%nat in
  (total <= room (upcoming k))%nat ->
  let m1 := fst (pack_header header ms sbuf) in
  let '(m2, packed) :=
    pack_order_book_body (P := P1) order_book volumes m1 (sbuf + 8) in
  let '(sent, k') := mitch_send_tcp k m2 sbuf (8 + Z.to_nat packed) in
  sent = 0 /\
  exists wire,
    accepted k' = accepted k ++ wire /\ length wire = total /\
    forall (s : socket) (mr : mem) (rbuf : nat) (buffer_size : Z)
           (rest : list byte),
      deliverable s = wire ++ rest ->
      Z.of_nat total <= buffer_size ->
      let '(ret, s', mr') :=
        mitch_recv_message (P := P2) s mr rbuf buffer_size in
      ret = Z.of_nat total /\ deliverable s' = rest /\
      unpack_header mr' rbuf = (header, 8) /\
      unpack_order_book_body (P := P2) mr' (rbuf + 8)
      = (OrderBook.mk (OrderBook.ticker_id order_book)
           (OrderBook.first_tick order_book)
           (OrderBook.tick_size order_book)
           (OrderBook.num_ticks order_book) (OrderBook.side order_book)
           (repeat x00 5),
         volumes,
         32 + 4 * OrderBook.num_ticks order_book).
Proof.
  intros Hts Htag Hcount Hvalid Hvol Hlen total Hroom m1.
  pose proof (header_wire_length header Hts) as Hhl.
  pose proof (order_book_wire_length order_book volumes) as Hbl.
  rewrite <- Hlen in Hbl.
  assert (Hnt : u16 (OrderBook.num_ticks order_book)) by apply Hvalid.
  set (wire := header_wire header ++ order_book_wire order_book volumes).
  assert (Hwl : length wire = total)
    by (unfold wire, total; rewrite length_app; lia).
  rewrite (surjective_pairing (pack_order_book_body _ _ _ _)).
  assert (Hpacked : snd (pack_order_book_body (P := P1) order_book volumes
                           m1 (sbuf + 8))
                    = 32 + 4 * OrderBook.num_ticks order_book).
  { cbv beta zeta delta [pack_order_book_body snd].
    now apply int_order_book_length. }
  assert (Htotal : (8 + Z.to_nat (32 + 4 * OrderBook.num_ticks order_book))%nat
                   = total)
    by (unfold total, u16 in *; lia).
  rewrite Hpacked, Htotal.
  assert (Hm2 : fst (pack_order_book_body (P := P1) order_book volumes m1
                       (sbuf + 8))
                = write_bytes ms sbuf wire).
  { unfold m1, wire. rewrite pack_header_image by lia. cbn [fst].
    rewrite pack_order_book_body_image.
    now rewrite write_bytes_app, Hhl. }
  rewrite Hm2.
  destruct (mitch_send_tcp_ok k (write_bytes ms sbuf wire) sbuf total Hroom)
    as [Es Ea].
  rewrite Es. split; [reflexivity|].
  exists wire. split; [|split; [exact Hwl|]].
  { rewrite Ea. f_equal. now apply load_write_bytes_same. }
  intros s mr rbuf buffer_size rest Hs Hfit.
  assert (Hmsg : complete_message wire).
  { split; [lia|].
    unfold wire. rewrite !app_nth1 by lia.
    change (nth 0 (header_wire header) x00)
      with (MitchHeader.message_type header).
    assert (Hc : nth 7 (header_wire header) x00 = MitchHeader.count header).
    { unfold header_wire. destruct (MitchHeader.timestamp header)
        as [|a [|b [|c [|d [|e [|f [|g l]]]]]]]; try discriminate.
      reflexivity. }
    rewrite Hc, Htag, Hcount.
    change (Byte.eqb MITCH_MSG_TYPE_ORDER_BOOK MITCH_MSG_TYPE_ORDER_BOOK)
      with true. cbv iota.
    split; [reflexivity|].
    rewrite skipn_app_exact by exact Hhl.
    rewrite wire_num_ticks_order_book by exact Hnt.
    fold wire. rewrite Hwl. unfold total, u16 in *. lia. }
  rewrite (mitch_recv_message_complete s mr rbuf buffer_size wire rest)
    by (assumption || lia).
  rewrite Hwl. split; [reflexivity|]. split; [|split].
  - rewrite deliverable_advance by (rewrite Hs, length_app; lia).
    rewrite Hs. apply skipn_app_exact. exact Hwl.
  - now apply unpack_header_of_wire.
  - unfold wire. rewrite write_bytes_app, Hhl.
    rewrite <- (order_book_round_trip (P := P2) order_book volumes
                  (write_bytes mr rbuf (header_wire header)) (rbuf + 8))
      by assumption.
    now rewrite pack_order_book_body_image.
Qed.

(** X21.  [example_usage], for every clock reading, on every platform:
    the final offset is 40, the size of its buffer; nothing outside the
    40 bytes of the buffer is stored to; and the buffer holds tag 't',
    the low 48 bits of the clock reading most significant byte first,
    count 1 and the 32 bytes of the trade, which together are a complete
    message. *)
Theorem example_usage_message (P : Platform) (timestamp : Z) (m : mem)
    (buffer : nat) :
  let '(m', offset) := example_usage timestamp m buffer in
  offset = 40 /\
  load m' buffer 40
  = [x74] ++ be_bytes 6 timestamp ++ [x01]
    ++ [x00; x00; x6f; x00; x1c; xd0; x00; x00;
        x3f; xf1; x5c; x28; xf5; xc2; x8f; x5c;
        x00; x0f; x42; x40;
        x00; x00; x30; x39;
        x00;
        x00; x00; x00; x00; x00; x00; x00] /\
  (forall q, (q < buffer \/ buffer + 40 <= q)%nat -> m' q = m q) /\
  complete_message (load m' buffer 40).
Proof.
  cbv beta zeta delta [example_usage].
  rewrite write_timestamp_48_image.
  rewrite load_write_bytes_same by apply be_bytes_length.
  set (header := MitchHeader.mk MITCH_MSG_TYPE_TRADE (be_bytes 6 timestamp)
                   x01).
  set (trade := Trade.mk _ _ _ _ _ _).
  assert (Hts : length (MitchHeader.timestamp header) = 6%nat)
    by apply be_bytes_length.
  rewrite pack_header_image by (rewrite Hts; lia).
  change (int_add 0 8) with 8. change (Z.to_nat 0) with 0%nat.
  change (Z.to_nat 8) with 8%nat. rewrite Nat.add_0_r.
  rewrite pack_trade_body_image.
  change (int_add 8 32) with 40.
  replace (write_bytes (write_bytes m buffer (header_wire header))
             (buffer + 8) (trade_wire trade))
    with (write_bytes m buffer (header_wire header ++ trade_wire trade))
    by (rewrite write_bytes_app, header_wire_length by exact Hts;
        reflexivity).
  assert (Hw : header_wire header ++ trade_wire trade
               = [x74] ++ be_bytes 6 timestamp ++ [x01]
                 ++ [x00; x00; x6f; x00; x1c; xd0; x00; x00;
                     x3f; xf1; x5c; x28; xf5; xc2; x8f; x5c;
                     x00; x0f; x42; x40;
                     x00; x00; x30; x39;
                     x00;
                     x00; x00; x00; x00; x00; x00; x00]).
  { unfold header_wire. cbn [MitchHeader.message_type MitchHeader.timestamp
                             MitchHeader.count header].
    rewrite firstn_all2 by (rewrite be_bytes_length; lia).
    rewrite <- !app_assoc. reflexivity. }
  assert (Hl : length (header_wire header ++ trade_wire trade) = 40%nat)
    by (rewrite length_app, header_wire_length, trade_wire_length by exact Hts;
        reflexivity).
  assert (Hload : load (write_bytes m buffer
                          (header_wire header ++ trade_wire trade))
                    buffer 40
                  = header_wire header ++ trade_wire trade)
    by now apply load_write_bytes_same.
  split; [reflexivity|]. split; [|split].
  - rewrite Hload. exact Hw.
  - intros q Hq. apply write_bytes_outside. rewrite Hl. lia.
  - rewrite Hload. apply complete_fixed_message.
    + exact Hts.
    + discriminate.
    + rewrite trade_wire_length. reflexivity.
Qed.

(* ================================================================== *)
(** * The further properties at concrete inputs *)

Lemma header_codec_round_trip_witness :
  length (MitchHeader.timestamp example_header_record) = 6%nat /\
  (let '(m', packed) := pack_header example_header_record zero_mem 4 in
   packed = 8 /\
   load m' 4 8
   = [MitchHeader.message_type example_header_record]
     ++ MitchHeader.timestamp example_header_record
     ++ [MitchHeader.count example_header_record] /\
   (forall q, (q < 4 \/ 4 + 8 <= q)%nat -> m' q = zero_mem q) /\
   unpack_header m' 4 = (example_header_record, 8)).
Proof.
  assert (H : length (MitchHeader.timestamp example_header_record) = 6%nat)
    by reflexivity.
  split; [exact H|].
  exact (header_codec_round_trip example_header_record zero_mem 4 H).
Defined.

Lemma fixed_encoders_in_bounds_witness :
  (40 < 8 \/ 8 + 32 <= 40)%nat /\
  fst (pack_trade_body (P := lp64_le) nan_trade zero_mem 8) 40%nat
  = zero_mem 40%nat /\
  fst (pack_order_body (P := lp64_le) padded_order zero_mem 8) 40%nat
  = zero_mem 40%nat /\
  fst (pack_ticker_body (P := lp64_le) example_tick zero_mem 8) 40%nat
  = zero_mem 40%nat.
Proof.
  assert (H : (40 < 8 \/ 8 + 32 <= 40)%nat) by lia.
  split; [exact H|].
  exact (fixed_encoders_in_bounds lp64_le nan_trade padded_order example_tick
           zero_mem 8 40 H).
Defined.

Lemma fixed_bodies_wire_layout_witness :
  length (Order.expiry padded_order) = 6%nat /\
  load (fst (pack_order_body (P := ilp32_be) padded_order zero_mem 0)) 0 32
  = be_bytes 8 (Order.ticker_id padded_order)
    ++ be_bytes 4 (Order.order_id padded_order)
    ++ be_bytes 8 (Order.price padded_order)
    ++ be_bytes 4 (Order.quantity padded_order)
    ++ [Order.type_and_side padded_order] ++ Order.expiry padded_order
    ++ [Order.padding padded_order].
Proof.
  assert (H : length (Order.expiry padded_order) = 6%nat) by reflexivity.
  split; [exact H|].
  exact (proj1 (proj2 (fixed_bodies_wire_layout ilp32_be nan_trade
                         padded_order example_tick zero_mem 0 H))).
Defined.

Lemma order_book_encoder_layout_witness :
  (Z.to_nat (OrderBook.num_ticks example_book) <= length [100; 200])%nat /\
  load (fst (pack_order_book_body (P := lp64_le) example_book [100; 200]
               zero_mem 0)) (0 + 32)
    (4 * Z.to_nat (OrderBook.num_ticks example_book))
  = flat_map (be_bytes 4)
      (firstn (Z.to_nat (OrderBook.num_ticks example_book)) [100; 200]).
Proof.
  assert (H : (Z.to_nat (OrderBook.num_ticks example_book)
               <= length [100; 200])%nat) by (cbn; lia).
  split; [exact H|].
  exact (proj1 (proj2 (order_book_encoder_layout lp64_le example_book
                         [100; 200] zero_mem 0 H))).
Defined.

Lemma type_and_side_combine_extract_witness :
  Z_of_byte x01 <= 1 /\
  extract_side (combine_type_and_side x03 x01) = x01 /\
  Z_of_byte (extract_order_type (combine_type_and_side x03 x01))
  = Z_of_byte x03 mod 128.
Proof.
  assert (H : Z_of_byte x01 <= 1) by (cbn; lia).
  split; [exact H|].
  exact (type_and_side_combine_extract x03 x01 H).
Defined.

Lemma send_all_accepted_witness :
  let m := write_bytes zero_mem 0 example_message in
  (40 <= room (upcoming example_sink))%nat /\
  (let '(ret, k') := mitch_send_tcp example_sink m 0 40 in
   ret = 0 /\ accepted k' = accepted example_sink ++ load m 0 40).
Proof.
  intros m.
  assert (H : (40 <= room (upcoming example_sink))%nat) by (cbn; lia).
  split; [exact H|].
  exact (send_all_accepted example_sink m 0 40 H).
Defined.

Lemma send_failure_leaves_prefix_witness :
  let m := write_bytes zero_mem 0 example_message in
  (room (upcoming short_sink) < 40)%nat /\
  (let '(ret, k') := mitch_send_tcp short_sink m 0 40 in
   ret = -1 /\
   accepted k'
   = accepted short_sink
     ++ firstn (room (upcoming short_sink)) (load m 0 40)).
Proof.
  intros m.
  assert (H : (room (upcoming short_sink) < 40)%nat) by (cbn; lia).
  split; [exact H|].
  exact (send_failure_leaves_prefix short_sink m 0 40 H).
Defined.

Lemma recv_message_in_bounds_witness :
  let s := split_stream [5]%nat example_message in
  8 <= 40 /\
  (40 <= 40 \/ nth 0 (deliverable s) x00 <> MITCH_MSG_TYPE_ORDER_BOOK) /\
  (40 < 0 \/ 0 + Z.to_nat 40 <= 40)%nat /\
  snd (mitch_recv_message (P := lp64_le) s zero_mem 0 40) 40%nat
  = zero_mem 40%nat.
Proof.
  intros s.
  assert (H1 : 8 <= 40) by lia.
  assert (H2 : 40 <= 40 \/
               nth 0 (deliverable s) x00 <> MITCH_MSG_TYPE_ORDER_BOOK)
    by (left; lia).
  assert (H3 : (40 < 0 \/ 0 + Z.to_nat 40 <= 40)%nat) by (cbn; lia).
  split; [exact H1|]. split; [exact H2|]. split; [exact H3|].
  exact (recv_message_in_bounds (P := lp64_le) s zero_mem 0 40 40 H1 H2 H3).
Defined.

Lemma truncated_message_fails_witness :
  let s := split_stream [3]%nat (firstn 20 example_message) in
  complete_message example_message /\
  (20 < length example_message)%nat /\
  deliverable s = firstn 20 example_message /\
  Z.of_nat (length example_message) <= 64 /\
  fst (fst (mitch_recv_message (P := lp64_le) s zero_mem 0 64)) = -1.
Proof.
  intros s.
  assert (Hmsg : complete_message example_message)
    by (split; [cbn; lia | reflexivity]).
  assert (Hn : (20 < length example_message)%nat) by (cbn; lia).
  assert (Hs : deliverable s = firstn 20 example_message) by reflexivity.
  assert (Hfit : Z.of_nat (length example_message) <= 64) by (cbn; lia).
  split; [exact Hmsg|]. split; [exact Hn|]. split; [exact Hs|].
  split; [exact Hfit|].
  exact (truncated_message_fails (P := lp64_le) s zero_mem 0 64
           example_message 20 Hmsg Hn Hs Hfit).
Defined.

Lemma consecutive_messages_witness :
  let msg2 := book_header ++ book_prefix ++ book_volumes in
  let s := split_stream [7; 50]%nat (example_message ++ msg2) in
  complete_message example_message /\
  complete_message msg2 /\
  deliverable s = example_message ++ msg2 ++ [] /\
  Z.of_nat (length example_message) <= 64 /\
  Z.of_nat (length msg2) <= 64 /\
  (let '(ret1, s1, m1) :=
     mitch_recv_message (P := lp64_le) s zero_mem 0 64 in
   let '(ret2, s2, m2) := mitch_recv_message (P := lp64_le) s1 m1 0 64 in
   ret1 = Z.of_nat (length example_message) /\
   load m1 0 (length example_message) = example_message /\
   ret2 = Z.of_nat (length msg2) /\
   load m2 0 (length msg2) = msg2 /\
   deliverable s2 = []).
Proof.
  intros msg2 s.
  assert (H1 : complete_message example_message)
    by (split; [cbn; lia | reflexivity]).
  assert (H2 : complete_message msg2)
    by (split; [cbn; lia | vm_compute; split; reflexivity]).
  assert (Hs : deliverable s = example_message ++ msg2 ++ [])
    by reflexivity.
  assert (Hf1 : Z.of_nat (length example_message) <= 64) by (cbn; lia).
  assert (Hf2 : Z.of_nat (length msg2) <= 64) by (cbn; lia).
  split; [exact H1|]. split; [exact H2|]. split; [exact Hs|].
  split; [exact Hf1|]. split; [exact Hf2|].
  exact (consecutive_messages (P := lp64_le) s zero_mem 0 64 example_message
           msg2 [] H1 H2 Hs Hf1 Hf2).
Defined.

Lemma trade_message_end_to_end_witness :
  length (MitchHeader.timestamp example_header_record) = 6%nat /\
  MitchHeader.message_type example_header_record
  <> MITCH_MSG_TYPE_ORDER_BOOK /\
  MitchHeader.count example_header_record = x01 /\
  Trade_valid example_trade /\
  (40 <= room (upcoming example_sink))%nat /\
  (let m1 := fst (pack_header example_header_record zero_mem 0) in
   let m2 := fst (pack_trade_body (P := lp64_le) example_trade m1 (0 + 8)) in
   let '(sent, k') := mitch_send_tcp example_sink m2 0 40 in
   sent = 0 /\
   exists wire,
     accepted k' = accepted example_sink ++ wire /\ length wire = 40%nat /\
     forall (s : socket) (mr : mem) (rbuf : nat) (buffer_size : Z)
            (rest : list byte),
       deliverable s = wire ++ rest ->
       40 <= buffer_size ->
       let '(ret, s', mr') :=
         mitch_recv_message (P := ilp32_be) s mr rbuf buffer_size in
       ret = 40 /\ deliverable s' = rest /\
       unpack_header mr' rbuf = (example_header_record, 8) /\
       unpack_trade_body (P := ilp32_be) mr' (rbuf + 8)
       = (Trade.mk (Trade.ticker_id example_trade)
            (Trade.price example_trade) (Trade.quantity example_trade)
            (Trade.trade_id example_trade) (Trade.side example_trade)
            (repeat x00 7),
          32)).
Proof.
  assert (H1 : length (MitchHeader.timestamp example_header_record) = 6%nat)
    by reflexivity.
  assert (H2 : MitchHeader.message_type example_header_record
               <> MITCH_MSG_TYPE_ORDER_BOOK) by discriminate.
  assert (H3 : MitchHeader.count example_header_record = x01)
    by reflexivity.
  assert (H4 : Trade_valid example_trade) by (repeat split; in_range).
  assert (H5 : (40 <= room (upcoming example_sink))%nat) by (cbn; lia).
  split; [exact H1|]. split; [exact H2|]. split; [exact H3|].
  split; [exact H4|]. split; [exact H5|].
  exact (trade_message_end_to_end lp64_le ilp32_be example_header_record
           example_trade example_sink zero_mem 0 H1 H2 H3 H4 H5).
Defined.

Lemma order_book_message_end_to_end_witness :
  length (MitchHeader.timestamp book_header_record) = 6%nat /\
  MitchHeader.message_type book_header_record = MITCH_MSG_TYPE_ORDER_BOOK /\
  MitchHeader.count book_header_record = x01 /\
  OrderBook_valid example_book /\
  Forall u32 [100; 200] /\
  length [100; 200] = Z.to_nat (OrderBook.num_ticks example_book) /\
  (8 + 32 + 4 * length [100; 200] <= room (upcoming example_sink))%nat /\
  (let m1 := fst (pack_header book_header_record zero_mem 0) in
   let '(m2, packed) :=
     pack_order_book_body (P := ilp32_be) example_book [100; 200] m1
       (0 + 8) in
   let '(sent, k') := mitch_send_tcp example_sink m2 0 (8 + Z.to_nat packed) in
   sent = 0 /\
   exists wire,
     accepted k' = accepted example_sink ++ wire /\
     length wire = (8 + 32 + 4 * length [100; 200])%nat /\
     forall (s : socket) (mr : mem) (rbuf : nat) (buffer_size : Z)
            (rest : list byte),
       deliverable s = wire ++ rest ->
       Z.of_nat (8 + 32 + 4 * length [100; 200]) <= buffer_size ->
       let '(ret, s', mr') :=
         mitch_recv_message (P := lp64_le) s mr rbuf buffer_size in
       ret = Z.of_nat (8 + 32 + 4 * length [100; 200]) /\
       deliverable s' = rest /\
       unpack_header mr' rbuf = (book_header_record, 8) /\
       unpack_order_book_body (P := lp64_le) mr' (rbuf + 8)
       = (OrderBook.mk (OrderBook.ticker_id example_book)
            (OrderBook.first_tick example_book)
            (OrderBook.tick_size example_book)
            (OrderBook.num_ticks example_book) (OrderBook.side example_book)
            (repeat x00 5),
          [100; 200],
          32 + 4 * OrderBook.num_ticks example_book)).
Proof.
  assert (H1 : length (MitchHeader.timestamp book_header_record) = 6%nat)
    by reflexivity.
  assert (H2 : MitchHeader.message_type book_header_record
               = MITCH_MSG_TYPE_ORDER_BOOK) by reflexivity.
  assert (H3 : MitchHeader.count book_header_record = x01) by reflexivity.
  assert (H4 : OrderBook_valid example_book) by (repeat split; in_range).
  assert (H5 : Forall u32 [100; 200]) by (repeat constructor; in_range).
  assert (H6 : length [100; 200]
               = Z.to_nat (OrderBook.num_ticks example_book))
    by reflexivity.
  assert (H7 : (8 + 32 + 4 * length [100; 200]
                <= room (upcoming example_sink))%nat) by (cbn; lia).
  split; [exact H1|]. split; [exact H2|]. split; [exact H3|].
  split; [exact H4|]. split; [exact H5|]. split; [exact H6|].
  split; [exact H7|].
  exact (order_book_message_end_to_end ilp32_be lp64_le book_header_record
           example_book [100; 200] example_sink zero_mem 0
           H1 H2 H3 H4 H5 H6 H7).
Defined.
